(** * Bulk email scheduler: the rate-limited, interruptible send loop

    A shallow embedding of [bulk_email_scheduler.py] and the properties of
    its counter derivation, quiet-window policy, delay sampler, recipient
    selector and run loop.

    Conventions of the embedding.
    - Python [str] is [string]; the text handled is ASCII, so [str.lower]
      is the ASCII case fold and [str.strip] removes ASCII white space.
    - Python [int] is [Z]; a [set[str]] is a [gset string], a
      [dict[str, int]] a [gmap string Z].
    - [datetime.date] and [datetime.datetime] are records of their
      fields; the calendar is the proleptic Gregorian one, with no upper
      bound on the year.
    - The clock, the network, the keyboard, the SMTP server, the random
      source and other writers of the log file form the environment
      [Env]; the program reads them one interaction at a time.
    - Effectful code lives in the monad [M] over the [World]: the
      interaction count, the log file, [State.bcc_on] and the trace of
      what was printed, sent and slept. A computation ends with a value,
      an exception or [sys.exit], or is [Unfinished] when the fuel of its
      [while] loops runs out. *)

From Stdlib Require Import ZArith QArith Qround Lia Ascii String.
From stdpp Require Import base option list strings gmap.

Open Scope Z_scope.

(** ** Text *)

Module Text.

(** [str.lower] on ASCII text. *)
Definition lower_ascii (c : ascii) : ascii :=
  let n := nat_of_ascii c in
  if (Nat.leb 65 n && Nat.leb n 90)%bool then ascii_of_nat (n + 32) else c.

Fixpoint lower (s : string) : string :=
  match s with
  | EmptyString => EmptyString
  | String c r => String (lower_ascii c) (lower r)
  end.

(** [s.split(sep)] for a one-character separator: never empty. *)
Fixpoint split (sep : ascii) (s : string) : list string :=
  match s with
  | EmptyString => [EmptyString]
  | String c r =>
      if Ascii.eqb c sep then EmptyString :: split sep r
      else match split sep r with
           | h :: t => String c h :: t
           | [] => [String c EmptyString]
           end
  end.

(** [sub in s] for a one-character [sub]. *)
Fixpoint contains (c : ascii) (s : string) : bool :=
  match s with
  | EmptyString => false
  | String d r => Ascii.eqb d c || contains c r
  end.

(** [s.startswith(p)]. *)
Fixpoint startswith (s p : string) : bool :=
  match p, s with
  | EmptyString, _ => true
  | String _ _, EmptyString => false
  | String a p', String b s' => Ascii.eqb a b && startswith s' p'
  end.

(** ASCII white space as [str.isspace] sees it. *)
Definition is_space (c : ascii) : bool :=
  let n := nat_of_ascii c in
  (Nat.leb 9 n && Nat.leb n 13) || (Nat.leb 28 n && Nat.leb n 32).

Fixpoint lstrip (s : string) : string :=
  match s with
  | EmptyString => EmptyString
  | String c r => if is_space c then lstrip r else s
  end.

Fixpoint rstrip (s : string) : string :=
  match s with
  | EmptyString => EmptyString
  | String c r =>
      match rstrip r with
      | EmptyString => if is_space c then EmptyString else String c EmptyString
      | r' => String c r'
      end
  end.

Definition strip (s : string) : string := rstrip (lstrip s).

(** Python truthiness of a [str]. *)
Definition nonempty (s : string) : bool :=
  match s with EmptyString => false | _ => true end.

End Text.

Import Text.

(** [domain_of(addr)]: the text after the last [@], case-folded. *)
Definition domain_of (addr : string) : string :=
  lower (default EmptyString (last (split "@" addr))).

(** ** Configuration: the module-level constants read from the process
    environment *)

Record Config := {
  QUIET_START_HOUR : Z;
  QUIET_END_HOUR : Z;
  MAX_PER_DAY_TOTAL : Z;
  MAX_PER_HOUR_TOTAL : Z;
  MAX_PER_DAY_PER_DOMAIN : Z;
  PER_RUN_LIMIT : Z;
  SMTP_PASS : bool;          (* whether the password variable is set *)
  BCC_DEFAULT : string;
  TEST_ADDRESS : string;
  HAS_MSVCRT : bool
}.

(** The published defaults. *)
Definition default_config : Config := {|
  QUIET_START_HOUR := 20;
  QUIET_END_HOUR := 7;
  MAX_PER_DAY_TOTAL := 78;
  MAX_PER_HOUR_TOTAL := 12;
  MAX_PER_DAY_PER_DOMAIN := 5;
  PER_RUN_LIMIT := 999999;
  SMTP_PASS := true;
  BCC_DEFAULT := "";
  TEST_ADDRESS := "your-address@example.com";
  HAS_MSVCRT := false
|}.

(** ** Recipient selector *)

Section Selector.
Variable cfg : Config.

(** [d.get(k, 0)]. *)
Definition get0 (d : gmap string Z) (k : string) : Z := default 0 (d !! k).

(** Python truthiness of [last_domain: str | None]. *)
Definition truthy (o : option string) : bool :=
  match o with Some s => nonempty s | None => false end.

(** The body of the [for addr in emails] loop, with [candidate_any]
    as the loop-carried variable. *)
Fixpoint scan_emails (emails : list string) (already_sent : gset string)
    (used_domains_today : gmap string Z) (last_domain : option string)
    (failed_once : gset string) (candidate_any : option string)
    : option string :=
  match emails with
  | [] => candidate_any
  | addr :: rest =>
      let low := lower addr in
      if bool_decide (low ∈ already_sent) || bool_decide (low ∈ failed_once)
      then scan_emails rest already_sent used_domains_today last_domain
             failed_once candidate_any
      else
        let dom := domain_of low in
        if MAX_PER_DAY_PER_DOMAIN cfg <=? get0 used_domains_today dom
        then scan_emails rest already_sent used_domains_today last_domain
               failed_once candidate_any
        else if truthy last_domain
                && negb (bool_decide (Some dom = last_domain))
        then Some low
        else scan_emails rest already_sent used_domains_today last_domain
               failed_once
               (match candidate_any with
                | None => Some low
                | Some _ => candidate_any
                end)
  end.

Definition first_unsent_rotating (emails : list string)
    (already_sent : gset string) (used_domains_today : gmap string Z)
    (last_domain : option string) (failed_once : gset string)
    : option string :=
  scan_emails emails already_sent used_domains_today last_domain
    failed_once None.

End Selector.

(** ** Calendar: [datetime.date], [datetime.datetime], [datetime.timedelta] *)

Module Calendar.

Record date := mkdate { year : Z; month : Z; day : Z }.

(** A [datetime]; [utcoffset] is [None] for a naive value and the
    offset east of UTC, in microseconds, for an aware one. *)
Record datetime := mkdatetime {
  on : date;
  hour : Z;
  minute : Z;
  second : Z;
  microsecond : Z;
  utcoffset : option Z
}.

#[global] Instance date_eq_dec : EqDecision date.
Proof. solve_decision. Defined.

#[global] Instance datetime_eq_dec : EqDecision datetime.
Proof. solve_decision. Defined.

Definition is_leap (y : Z) : bool :=
  (y mod 4 =? 0) && (negb (y mod 100 =? 0) || (y mod 400 =? 0)).

Definition days_in_month (y m : Z) : Z :=
  if m =? 2 then (if is_leap y then 29 else 28)
  else if (m =? 4) || (m =? 6) || (m =? 9) || (m =? 11) then 30
  else 31.

Definition valid_date (d : date) : bool :=
  (1 <=? year d) && (1 <=? month d) && (month d <=? 12)
  && (1 <=? day d) && (day d <=? days_in_month (year d) (month d)).

Definition valid_time (h mi s us : Z) : bool :=
  (0 <=? h) && (h <=? 23) && (0 <=? mi) && (mi <=? 59)
  && (0 <=? s) && (s <=? 59) && (0 <=? us) && (us <=? 999999).

(** [d + timedelta(days=1)] and [d - timedelta(days=1)]. *)
Definition next_day (d : date) : date :=
  if day d <? days_in_month (year d) (month d)
  then mkdate (year d) (month d) (day d + 1)
  else if month d <? 12 then mkdate (year d) (month d + 1) 1
  else mkdate (year d + 1) 1 1.

Definition prev_day (d : date) : date :=
  if 1 <? day d then mkdate (year d) (month d) (day d - 1)
  else if 1 <? month d
  then mkdate (year d) (month d - 1) (days_in_month (year d) (month d - 1))
  else mkdate (year d - 1) 12 31.

(** [d + timedelta(days=n)]. *)
Definition date_add_days (d : date) (n : Z) : date :=
  if 0 <=? n then Nat.iter (Z.to_nat n) next_day d
  else Nat.iter (Z.to_nat (- n)) prev_day d.

(** [date.toordinal()]. *)
Definition days_before_year (y : Z) : Z :=
  let p := y - 1 in p * 365 + p / 4 - p / 100 + p / 400.

Definition days_before_month (y m : Z) : Z :=
  nth (Z.to_nat (m - 1)) [0; 31; 59; 90; 120; 151; 181; 212; 243; 273; 304; 334] 0
  + (if (2 <? m) && is_leap y then 1 else 0).

Definition toordinal (d : date) : Z :=
  days_before_year (year d) + days_before_month (year d) (month d) + day d.

Definition us_per_second : Z := 1000000.
Definition us_per_day : Z := 86400 * us_per_second.

(** Microseconds since midnight. *)
Definition time_us (t : datetime) : Z :=
  ((hour t * 60 + minute t) * 60 + second t) * us_per_second + microsecond t.

Definition at_time_us (d : date) (us : Z) (off : option Z) : datetime :=
  mkdatetime d (us / (3600 * us_per_second))
    (us / (60 * us_per_second) mod 60)
    (us / us_per_second mod 60)
    (us mod us_per_second) off.

(** [t + timedelta(microseconds=delta)]. *)
Definition add_us (t : datetime) (delta : Z) : datetime :=
  let total := time_us t + delta in
  at_time_us (date_add_days (on t) (total / us_per_day))
    (total mod us_per_day) (utcoffset t).

Definition add_seconds (t : datetime) (s : Z) : datetime :=
  add_us t (s * us_per_second).
Definition add_minutes (t : datetime) (m : Z) : datetime :=
  add_seconds t (m * 60).
Definition add_hours (t : datetime) (h : Z) : datetime :=
  add_seconds t (h * 3600).

(** [(a - b)] for two naive values, in microseconds. *)
Definition diff_us (a b : datetime) : Z :=
  (toordinal (on a) - toordinal (on b)) * us_per_day + (time_us a - time_us b).

(** [t.replace(minute=0, second=0, microsecond=0)]. *)
Definition top_of_hour (t : datetime) : datetime :=
  mkdatetime (on t) (hour t) 0 0 0 (utcoffset t).

(** [datetime.combine(d, time(hour=h, minute=mi, second=0))]; [None]
    is the [ValueError] of [datetime.time] for a field out of range. *)
Definition combine (d : date) (h mi : Z) : option datetime :=
  if valid_time h mi 0 0 then Some (mkdatetime d h mi 0 0 None) else None.

(** Comparison of naive values: field by field, as Python does. *)
Definition key (t : datetime) : list Z :=
  [year (on t); month (on t); day (on t); hour t; minute t; second t;
   microsecond t].

Fixpoint lex_lt (a b : list Z) : bool :=
  match a, b with
  | x :: a', y :: b' => (x <? y) || ((x =? y) && lex_lt a' b')
  | [], _ :: _ => true
  | _, [] => false
  end.

Definition lt (a b : datetime) : bool := lex_lt (key a) (key b).
Definition ge (a b : datetime) : bool := negb (lt a b).

(** [t.astimezone(timezone.utc)]; a naive [t] is read in the system
    zone, whose offset [sys] the caller supplies. *)
Definition astimezone_utc (sys : Z) (t : datetime) : datetime :=
  let off := default sys (utcoffset t) in
  let u := add_us t (- off) in
  mkdatetime (on u) (hour u) (minute u) (second u) (microsecond u) (Some 0).

End Calendar.

Import Calendar.

(** ** ISO 8601 text: [isoformat] and [fromisoformat] *)

Module Iso.

Definition digit (n : Z) : ascii := ascii_of_nat (48 + Z.to_nat n).

(** [n] in decimal, exactly [w] digits ([%0wd] for [0 <= n < 10^w]). *)
Fixpoint digits (w : nat) (n : Z) : string :=
  match w with
  | O => EmptyString
  | S k => digits k (n / 10) +:+ String (digit (n mod 10)) EmptyString
  end.

(** [date.isoformat()]: [YYYY-MM-DD]. *)
Definition date_isoformat (d : date) : string :=
  digits 4 (year d) +:+ "-" +:+ digits 2 (month d) +:+ "-" +:+ digits 2 (day d).

Definition offset_isoformat (off : Z) : string :=
  let a := Z.abs off in
  let s := a / us_per_second in
  (if off <? 0 then "-" else "+")
  +:+ digits 2 (s / 3600) +:+ ":" +:+ digits 2 (s / 60 mod 60)
  +:+ (if (s mod 60 =? 0) && (a mod us_per_second =? 0) then ""
       else ":" +:+ digits 2 (s mod 60)
            +:+ (if a mod us_per_second =? 0 then ""
                 else "." +:+ digits 6 (a mod us_per_second))).

(** [datetime.isoformat()]: the fraction is printed only when the
    microsecond is not zero, the offset only for an aware value. *)
Definition isoformat (t : datetime) : string :=
  date_isoformat (on t) +:+ "T"
  +:+ digits 2 (hour t) +:+ ":" +:+ digits 2 (minute t) +:+ ":"
  +:+ digits 2 (second t)
  +:+ (if microsecond t =? 0 then "" else "." +:+ digits 6 (microsecond t))
  +:+ match utcoffset t with
      | None => ""
      | Some off => offset_isoformat off
      end.

Definition digit_val (c : ascii) : option Z :=
  let n := nat_of_ascii c in
  if (Nat.leb 48 n && Nat.leb n 57)%bool then Some (Z.of_nat n - 48) else None.

(** Exactly [n] decimal digits at the head of [s]. *)
Fixpoint number (n : nat) (acc : Z) (s : string) : option (Z * string) :=
  match n with
  | O => Some (acc, s)
  | S k =>
      match s with
      | String c r =>
          match digit_val c with
          | Some d => number k (acc * 10 + d) r
          | None => None
          end
      | EmptyString => None
      end
  end.

(** The text before and after the first [c] of [s]. *)
Fixpoint cut (c : ascii) (s : string) : option (string * string) :=
  match s with
  | EmptyString => None
  | String d r =>
      if Ascii.eqb d c then Some (EmptyString, r)
      else match cut c r with
           | Some (a, b) => Some (String d a, b)
           | None => None
           end
  end.

(** [HH[:MM[:SS[.fff[fff]]]]]. *)
Definition hh_mm_ss_ff (s : string) : option (Z * Z * Z * Z) :=
  '(h, s1) ← number 2 0 s;
  match s1 with
  | EmptyString => Some (h, 0, 0, 0)
  | String ":" s2 =>
      '(m, s3) ← number 2 0 s2;
      match s3 with
      | EmptyString => Some (h, m, 0, 0)
      | String ":" s4 =>
          '(sec, s5) ← number 2 0 s4;
          match s5 with
          | EmptyString => Some (h, m, sec, 0)
          | String "." f =>
              if Nat.eqb (String.length f) 3
              then '(us, _) ← number 3 0 f; Some (h, m, sec, us * 1000)
              else if Nat.eqb (String.length f) 6
              then '(us, _) ← number 6 0 f; Some (h, m, sec, us)
              else None
          | _ => None
          end
      | _ => None
      end
  | _ => None
  end.

(** The offset after the sign: [HH:MM], [HH:MM:SS] or
    [HH:MM:SS.ffffff], strictly inside a day. *)
Definition tz_offset (negative : bool) (s : string) : option Z :=
  let n := String.length s in
  if Nat.eqb n 5 || Nat.eqb n 8 || Nat.eqb n 15 then
    '(h, m, sec, us) ← hh_mm_ss_ff s;
    let off := ((h * 60 + m) * 60 + sec) * us_per_second + us in
    if off <? us_per_day then Some (if negative then - off else off)
    else None
  else None.

(** The time of day with its optional offset; the offset starts at the
    first [-] if there is one, else at the first [+]. *)
Definition isoformat_time (s : string)
    : option (Z * Z * Z * Z * option Z) :=
  match cut "-" s, cut "+" s with
  | Some (t, z), _ =>
      c ← hh_mm_ss_ff t; off ← tz_offset true z; Some (c, Some off)
  | None, Some (t, z) =>
      c ← hh_mm_ss_ff t; off ← tz_offset false z; Some (c, Some off)
  | None, None => c ← hh_mm_ss_ff s; Some (c, None)
  end.

(** [datetime.fromisoformat(ts)] on the texts [isoformat] writes:
    [YYYY-MM-DD], then optionally any one separator and a time of day.
    [None] is the [ValueError] of a text that is no instant. *)
Definition fromisoformat (ts : string) : option datetime :=
  '(y, s1) ← number 4 0 ts;
  match s1 with
  | String "-" s2 =>
      '(m, s3) ← number 2 0 s2;
      match s3 with
      | String "-" s4 =>
          '(d, s5) ← number 2 0 s4;
          let day := mkdate y m d in
          if valid_date day then
            match s5 with
            | EmptyString => Some (mkdatetime day 0 0 0 0 None)
            | String _ tstr =>
                '(h, mi, sec, us, off) ← isoformat_time tstr;
                if valid_time h mi sec us
                then Some (mkdatetime day h mi sec us off)
                else None
            end
          else None
      | _ => None
      end
  | _ => None
  end.

End Iso.

Import Iso.

(** ** The clock *)

(** One reading of the system clock: the instant in UTC (a naive
    record of its fields) and the offset of local time at that instant,
    in microseconds. *)
Record Reading := mkReading { utc : datetime; zone : Z }.

(** [datetime.datetime.now()]: local and naive. *)
Definition datetime_now (clk : Reading) : datetime :=
  let t := add_us (utc clk) (zone clk) in
  mkdatetime (on t) (hour t) (minute t) (second t) (microsecond t) None.

(** [datetime.datetime.now(datetime.timezone.utc)]: aware. *)
Definition datetime_now_utc (clk : Reading) : datetime :=
  let t := utc clk in
  mkdatetime (on t) (hour t) (minute t) (second t) (microsecond t) (Some 0).

(** [datetime.date.today()]. *)
Definition date_today (clk : Reading) : date := on (datetime_now clk).

(** [utc_now_iso()]. *)
Definition utc_now_iso (clk : Reading) : string :=
  isoformat (datetime_now_utc clk).

(** ** History store and counter deriver

    In the functions below the clock reading that the source takes
    inside the function is the argument [clk]. *)

Definition row : Type := string * string.

(** [sum(1 for x in l if p(x))]. *)
Fixpoint count_if {A} (p : A → bool) (l : list A) : Z :=
  match l with
  | [] => 0
  | x :: r => (if p x then 1 else 0) + count_if p r
  end.

(** The rows of [parse_sent_log] for the lines of the file ([[]] for a
    file that does not exist). *)
Fixpoint parse_lines (lines : list string) : list row :=
  match lines with
  | [] => []
  | line :: more =>
      let line := strip line in
      if nonempty line then
        match split ";" line with
        | email :: rest => (lower email, default EmptyString (head rest)) :: parse_lines more
        | [] => parse_lines more
        end
      else parse_lines more
  end.

Definition sent_set (rows : list row) : gset string :=
  list_to_set (map fst rows).

Definition count_today (clk : Reading) (rows : list row) : Z :=
  let today := date_isoformat (date_today clk) in
  count_if (λ r : row, startswith (snd r) today) rows.

Definition count_today_domain (clk : Reading) (rows : list row) (dom : string) : Z :=
  let today := date_isoformat (date_today clk) in
  count_if (λ r : row, startswith (snd r) today
                        && bool_decide (domain_of (fst r) = dom)) rows.

(** The inner [within_hour] of [count_this_hour]; its [except] turns the
    [ValueError] of [fromisoformat] into [False]. *)
Definition within_hour (clk : Reading) (ts : string) : bool :=
  let now := datetime_now_utc clk in
  match fromisoformat ts with
  | Some t =>
      let t := astimezone_utc (zone clk) t in
      bool_decide ((year (on t), month (on t), day (on t), hour t)
                   = (year (on now), month (on now), day (on now), hour now))
  | None => false
  end.

Definition count_this_hour (clk : Reading) (rows : list row) : Z :=
  count_if (λ r : row, within_hour clk (snd r)) rows.

(** The line [append_sent] writes. *)
Definition sent_line (clk : Reading) (email : string) : string :=
  lower email +:+ ";" +:+ utc_now_iso clk.

(** [load_emails] on the lines of the file. *)
Fixpoint load_lines (lines : list string) : list string :=
  match lines with
  | [] => []
  | line :: more =>
      let a := strip line in
      if nonempty a && contains "@" a then a :: load_lines more
      else load_lines more
  end.

(** ** Quiet-window policy *)

Section Scheduling.
Variable cfg : Config.

Definition in_quiet_hours (dt_local : datetime) : bool :=
  let h := hour dt_local in
  (QUIET_START_HOUR cfg <=? h) || (h <? QUIET_END_HOUR cfg).

(** [next_start_of_day_at(hour, minute)], [now] being the clock
    reading taken inside. *)
Definition next_start_of_day_at (now : datetime) (hour_ : Z) (minute_ : Z)
    : option datetime :=
  let day := on now in
  let day := if hour_ <=? hour now then date_add_days day 1 else day in
  combine day hour_ minute_.

(** ** Delay sampler *)

(** [round(x)] of a float: to the nearest integer, ties to even. *)
Definition py_round (x : Q) : Z :=
  let f := Qfloor x in
  match Qcompare (x - inject_Z f) (1 # 2) with
  | Lt => f
  | Gt => f + 1
  | Eq => if Z.even f then f else f + 1
  end.

Record Profile := mkProfile { lo : Z; hi : Z; mean : Q; sigma : Q }.

Definition profile_at (h : Z) : Profile :=
  if ((9 <=? h) && (h <? 12)) || ((14 <=? h) && (h <? 17))
  then mkProfile 22 45 32 (2 # 5)
  else mkProfile 55 100 75 (2 # 5).

(** [biased_delay_minutes(now_local)]; [x] is the draw of
    [random.lognormvariate(mu, sigma)] and [jitter] that of
    [random.randint(0, 5)]. *)
Definition biased_delay_minutes (now_local : datetime) (x : Q) (jitter : Z) : Z :=
  let p := profile_at (hour now_local) in
  let val := Z.max (lo p) (Z.min (hi p) (py_round x)) in
  val + jitter.

(** [schedule_next(now_local, base_delay_min)]; [jitter] is the draw
    of [random.randint(5, 45)]. *)
Definition schedule_next (now_local : datetime) (base_delay_min : Z) (jitter : Z)
    : option datetime :=
  let target := add_minutes now_local base_delay_min in
  target ←
    (if in_quiet_hours target then
       let day := on target in
       let day := if QUIET_START_HOUR cfg <=? hour target
                  then date_add_days day 1 else day in
       combine day (QUIET_END_HOUR cfg) 0
     else Some target);
  Some (add_seconds target jitter).

End Scheduling.

(** ** Environment, effects and the trace of a run *)

(** Everything outside the process, as a function of the number of
    interactions the process has had with it so far. *)
Record Env := {
  clock : nat → Reading;
  reachable : nat → bool;              (* answer of a connection attempt *)
  keypress : nat → option ascii;       (* [None]: [kbhit()] is false *)
  delivered : nat → bool;              (* whether the SMTP server takes the message *)
  lognormal : nat → Q;                 (* a draw of [lognormvariate] *)
  entropy : nat → Z;                   (* raw material of [randint] *)
  appended_by_others : nat → list string;  (* lines other writers added to SENT_LOG *)
  emails_txt : option (list string);   (* lines of EMAILS_FILE, if it exists *)
  argv : list string
}.

Inductive Message :=
| MsgDailyLimit (today_total cap : Z)
| MsgDailyLimitStop (today_total cap : Z)
| MsgHourlyCap (hour_total cap : Z) (next_hour : datetime)
| MsgNothingLeft
| MsgSent (addr : string) (bcc : bool)
| MsgErr (addr : string)
| MsgPlan (target : datetime)
| MsgDone (sent_count : Z)
| MsgOffline
| MsgOfflineBeforeTest
| MsgQuiet (start : datetime)
| MsgPrompt
| MsgAbort
| MsgTestOffline
| MsgTestSent
| MsgTestErr
| MsgBcc (on_ : bool).

(** [build_message]: the headers that vary. *)
Record EmailMessage := mkEmail { msg_to : string; msg_bcc : option string }.

Inductive Event :=
| Printed (m : Message)
| Smtp (msg : EmailMessage) (accepted : bool)
| Slept (us : Z).

(** The mutable part: the interaction count, the lines of SENT_LOG,
    [State.bcc_on], and what the process has done so far. *)
Record World := mkWorld {
  step : nat;
  sent_log : list string;
  bcc_on : bool;
  trace : list Event
}.

Inductive exn := FileNotFoundError | RuntimeError | SMTPException | ValueError.

(** How a computation stops short of a value: with an exception, by
    [sys.exit], or not within the fuel given to its loops. *)
Inductive halt := Raised (e : exn) | Exited | Unfinished.

Inductive outcome (A : Type) :=
| Ret (a : A)
| Halt (h : halt).
Arguments Ret {A} a.
Arguments Halt {A} h.

Record M (A : Type) := mkM { run : World → World * outcome A }.
Arguments mkM {A} _.
Arguments run {A} _ _.

#[global] Instance M_ret : MRet M := λ A a, mkM (λ w, (w, Ret a)).
#[global] Instance M_bind : MBind M := λ A B k m,
  mkM (λ w, match run m w with
            | (w', Ret a) => run (k a) w'
            | (w', Halt h) => (w', Halt h)
            end).

Definition raise {A} (e : exn) : M A := mkM (λ w, (w, Halt (Raised e))).
Definition sys_exit {A} : M A := mkM (λ w, (w, Halt Exited)).
Definition out_of_fuel {A} : M A := mkM (λ w, (w, Halt Unfinished)).

(** [try: m except Exception as e: h(e)]; [sys.exit] is not caught. *)
Definition try_except {A} (m : M A) (h : exn → M A) : M A :=
  mkM (λ w, match run m w with
            | (w', Halt (Raised e)) => run (h e) w'
            | r => r
            end).

(** The next interaction with the environment. *)
Definition tick : M nat :=
  mkM (λ w, (mkWorld (S (step w)) (sent_log w) (bcc_on w) (trace w), Ret (step w))).

Definition emit (e : Event) : M unit :=
  mkM (λ w, (mkWorld (step w) (sent_log w) (bcc_on w) (trace w ++ [e]), Ret tt)).

Definition print (m : Message) : M unit := emit (Printed m).
Definition sleep (us : Z) : M unit := emit (Slept us).

Definition get_bcc_on : M bool := mkM (λ w, (w, Ret (bcc_on w))).
Definition set_bcc_on (b : bool) : M unit :=
  mkM (λ w, (mkWorld (step w) (sent_log w) b (trace w), Ret tt)).

Definition get_sent_log : M (list string) := mkM (λ w, (w, Ret (sent_log w))).
Definition set_sent_log (l : list string) : M unit :=
  mkM (λ w, (mkWorld (step w) l (bcc_on w) (trace w), Ret tt)).

(** [random.randint(a, b)] for [a <= b]. *)
Definition randint_of (a b raw : Z) : Z := a + raw mod (b - a + 1).

Section Effects.
Variable cfg : Config.
Variable E : Env.

Definition read_clock : M Reading := n ← tick; mret (clock E n).

Definition has_connectivity : M bool := n ← tick; mret (reachable E n).

Definition lognormvariate (mean_ sigma_ : Q) : M Q := n ← tick; mret (lognormal E n).

Definition randint (a b : Z) : M Z := n ← tick; mret (randint_of a b (entropy E n)).

(** [msvcrt.kbhit()] and, if a key waits, [msvcrt.getwch()]. *)
Definition kbhit_getwch : M (option ascii) := n ← tick; mret (keypress E n).

Definition build_message (to_addr : string) (bcc : bool) : EmailMessage :=
  mkEmail to_addr
    (if bcc && nonempty (BCC_DEFAULT cfg) then Some (BCC_DEFAULT cfg) else None).

Definition smtp_send_one (msg : EmailMessage) : M unit :=
  if negb (SMTP_PASS cfg) then raise RuntimeError
  else
    n ← tick;
    emit (Smtp msg (delivered E n));;
    if delivered E n then mret tt else raise SMTPException.

(** [parse_sent_log(SENT_LOG)]: the file as it is at this moment. *)
Definition parse_sent_log : M (list row) :=
  n ← tick;
  mine ← get_sent_log;
  let lines := mine ++ appended_by_others E n in
  set_sent_log lines;;
  mret (parse_lines lines).

Definition append_sent (email : string) : M unit :=
  clk ← read_clock;
  lines ← get_sent_log;
  set_sent_log (lines ++ [sent_line clk email]).

Definition load_emails : M (list string) :=
  match emails_txt E with
  | Some lines => mret (load_lines lines)
  | None => raise FileNotFoundError
  end.

(** *** Hotkeys and waits *)

(** The [while msvcrt.kbhit()] loop of [_hotkey_loop]. *)
Fixpoint drain_keys (fuel : nat) : M bool :=
  match fuel with
  | O => out_of_fuel
  | S fuel =>
      k ← kbhit_getwch;
      match k with
      | None => mret true
      | Some ch =>
          let ch := lower_ascii ch in
          if Ascii.eqb ch "q" then print MsgAbort;; mret false
          else
            (if Ascii.eqb ch "t" then
               try_except
                 (c ← has_connectivity;
                  if negb c then print MsgTestOffline
                  else
                    b ← get_bcc_on;
                    smtp_send_one (build_message (TEST_ADDRESS cfg) b);;
                    print MsgTestSent)
                 (λ _, print MsgTestErr)
             else mret tt);;
            (if Ascii.eqb ch "o" then
               b ← get_bcc_on;
               set_bcc_on (negb b);;
               print (MsgBcc (negb b))
             else mret tt);;
            drain_keys fuel
      end
  end.

Definition _hotkey_loop (fuel : nat) (during_wait : bool) : M bool :=
  if negb (HAS_MSVCRT cfg) then mret true
  else
    (if during_wait then print MsgPrompt else mret tt);;
    drain_keys fuel.

Fixpoint wait_for_connectivity (fuel : nat) : M bool :=
  match fuel with
  | O => out_of_fuel
  | S fuel =>
      c ← has_connectivity;
      if c : bool then mret true
      else
        _hotkey_loop fuel true;;
        sleep (2 * us_per_second);;
        wait_for_connectivity fuel
  end.

Fixpoint wait_until (fuel : nat) (target_local : datetime) : M bool :=
  match fuel with
  | O => out_of_fuel
  | S fuel =>
      clk ← read_clock;
      let now := datetime_now clk in
      if ge now target_local then mret true
      else
        ok ← _hotkey_loop fuel true;
        if negb ok then mret false
        else
          let remaining := diff_us target_local now in
          sleep (Z.min remaining (15 * us_per_second));;
          wait_until fuel target_local
  end.

(** [None] of a pure helper is the [ValueError] of [datetime.time]. *)
Definition or_value_error {A} (o : option A) : M A :=
  match o with Some a => mret a | None => raise ValueError end.

Definition ensure_business_window (fuel : nat) : M unit :=
  clk ← read_clock;
  let now := datetime_now clk in
  if in_quiet_hours cfg now then
    clk' ← read_clock;
    start ← or_value_error
              (next_start_of_day_at (datetime_now clk') (QUIET_END_HOUR cfg) 0);
    print (MsgQuiet start);;
    ok ← wait_until fuel start;
    if negb ok then sys_exit else mret tt
  else mret tt.

End Effects.

(** ** The run loop ([main]) *)

(** The local variables of [main] that live across iterations. *)
Record LoopState := mkLoop {
  sent_rows : list row;
  already : gset string;
  used_domains_today : gmap string Z;
  today_total : Z;
  hour_total : Z;
  sent_count : Z;
  last_domain : option string;
  failed_once : gset string
}.

(** How one pass through the body of the [while] ends: at its end or a
    [continue], or at a [break]. *)
Inductive control := Continue (s : LoopState) | Break (s : LoopState).

Definition test_mode (args : list string) : bool :=
  match args with
  | _ :: a :: _ => String.eqb a "--test"
  | _ => false
  end.

Section RunLoop.
Variable cfg : Config.
Variable E : Env.

(** The [for em, ts in sent_rows] loop that fills
    [used_domains_today]; it reads the date at every row. *)
Fixpoint tally_domains (rows : list row) (used : gmap string Z)
    : M (gmap string Z) :=
  match rows with
  | [] => mret used
  | (em, ts) :: rest =>
      clk ← read_clock E;
      if startswith ts (date_isoformat (date_today clk)) then
        let d := domain_of em in
        tally_domains rest (<[d := get0 used d + 1]> used)
      else tally_domains rest used
  end.

(** [if not has_connectivity(): print(...); if not wait_for_connectivity(): break];
    the result says whether the loop goes on. *)
Definition await_connectivity (fuel : nat) : M bool :=
  c ← has_connectivity E;
  if c : bool then mret true
  else print MsgOffline;; wait_for_connectivity cfg E fuel.

(** The branch taken when the hourly cap is reached. *)
Definition hourly_gate (fuel : nat) (s : LoopState) : M control :=
  clk ← read_clock E;
  let now := datetime_now clk in
  let next_hour := top_of_hour (add_hours now 1) in
  print (MsgHourlyCap (hour_total s) (MAX_PER_HOUR_TOTAL cfg) next_hour);;
  ok ← wait_until cfg E fuel next_hour;
  if negb ok then mret (Break s)
  else
    c ← has_connectivity E;
    ok ← (if c : bool then mret true else wait_for_connectivity cfg E fuel);
    if negb ok then mret (Break s)
    else
      rows ← parse_sent_log E;
      clk ← read_clock E;
      mret (Continue
              (mkLoop rows (already s) (used_domains_today s) (today_total s)
                 (count_this_hour clk rows) (sent_count s) (last_domain s)
                 (failed_once s))).

(** The assignments of the [try] block after a transmission that went
    through, and those of the [except] block. *)
Definition on_success (s : LoopState) (addr : string) : LoopState :=
  let d := domain_of addr in
  mkLoop (sent_rows s) ({[lower addr]} ∪ already s)
    (<[d := get0 (used_domains_today s) d + 1]> (used_domains_today s))
    (today_total s + 1) (hour_total s + 1) (sent_count s + 1)
    (Some d) (failed_once s).

Definition on_failure (s : LoopState) (addr : string) : LoopState :=
  mkLoop (sent_rows s) (already s) (used_domains_today s)
    (today_total s) (hour_total s) (sent_count s)
    (Some (domain_of addr)) ({[lower addr]} ∪ failed_once s).

(** The [try] / [except] around the transmission. *)
Definition attempt_send (s : LoopState) (addr : string) : M LoopState :=
  try_except
    (b ← get_bcc_on;
     smtp_send_one cfg E (build_message cfg addr b);;
     print (MsgSent addr b);;
     append_sent E addr;;
     mret (on_success s addr))
    (λ _,
     print (MsgErr addr);;
     mret (on_failure s addr)).

(** The end of the body: sample the delay, plan the next send and
    wait for it. The three draws are taken in the order of the source;
    the [ValueError] that [schedule_next] raises for a quiet-end hour
    outside 0..23 shows after the third draw here and before it in the
    source, which nothing in a run tells apart. *)
Definition plan_and_wait (fuel : nat) (s : LoopState) : M control :=
  clk ← read_clock E;
  let now_local := datetime_now clk in
  let p := profile_at (hour now_local) in
  x ← lognormvariate E (mean p) (sigma p);
  j ← randint E 0 5;
  let base_delay := biased_delay_minutes now_local x j in
  j' ← randint E 5 45;
  target ← or_value_error (schedule_next cfg now_local base_delay j');
  print (MsgPlan target);;
  ok ← wait_until cfg E fuel target;
  if negb ok then mret (Break s)
  else
    ok ← await_connectivity fuel;
    if negb ok then mret (Break s) else mret (Continue s).

(** From the transmission to the end of the body. *)
Definition send_step (fuel : nat) (s : LoopState) (addr : string) : M control :=
  s ← attempt_send s addr;
  if MAX_PER_DAY_TOTAL cfg <=? today_total s then
    print (MsgDailyLimitStop (today_total s) (MAX_PER_DAY_TOTAL cfg));;
    mret (Break s)
  else plan_and_wait fuel s.

(** The body of [while sent_count < limit and today_total < MAX_PER_DAY_TOTAL]. *)
Definition loop_body (fuel : nat) (emails : list string) (s : LoopState)
    : M control :=
  if MAX_PER_HOUR_TOTAL cfg <=? hour_total s then hourly_gate fuel s
  else
    match first_unsent_rotating cfg emails (already s) (used_domains_today s)
            (last_domain s) (failed_once s) with
    | Some addr =>
        if negb (nonempty addr) then print MsgNothingLeft;; mret (Break s)
        else
          ok ← _hotkey_loop cfg E fuel false;
          if negb ok then mret (Break s)
          else
            ok ← await_connectivity fuel;
            if negb ok then mret (Break s) else send_step fuel s addr
    | None => print MsgNothingLeft;; mret (Break s)
    end.

Fixpoint main_loop (fuel : nat) (emails : list string) (s : LoopState)
    : M LoopState :=
  match fuel with
  | O => out_of_fuel
  | S fuel =>
      if (sent_count s <? PER_RUN_LIMIT cfg)
         && (today_total s <? MAX_PER_DAY_TOTAL cfg)
      then
        c ← loop_body fuel emails s;
        match c with
        | Continue s => main_loop fuel emails s
        | Break s => mret s
        end
      else mret s
  end.

(** The [--test] mode of [main]. *)
Definition main_test : M unit :=
  try_except
    (b ← get_bcc_on;
     smtp_send_one cfg E (build_message cfg (TEST_ADDRESS cfg) b);;
     print MsgTestSent)
    (λ _, print MsgTestErr).

Definition main (fuel : nat) : M unit :=
  if test_mode (argv E) then
    c ← has_connectivity E;
    ok ← (if c : bool then mret true
          else print MsgOfflineBeforeTest;; wait_for_connectivity cfg E fuel);
    if negb ok then mret tt else main_test
  else
    sent_rows ← parse_sent_log E;
    let already := sent_set sent_rows in
    emails ← load_emails E;
    clk ← read_clock E;
    let today_total := count_today clk sent_rows in
    clk ← read_clock E;
    let hour_total := count_this_hour clk sent_rows in
    used_domains_today ← tally_domains sent_rows ∅;
    if MAX_PER_DAY_TOTAL cfg <=? today_total then
      print (MsgDailyLimit today_total (MAX_PER_DAY_TOTAL cfg))
    else
      ensure_business_window cfg E fuel;;
      ok ← await_connectivity fuel;
      if negb ok then mret tt
      else
        s ← main_loop fuel emails
              (mkLoop sent_rows already used_domains_today today_total
                 hour_total 0 None ∅);
        print (MsgDone (sent_count s)).

End RunLoop.

(** The recipients reported on the console as tried: one line per
    attempt of the loop, [MsgSent] or [MsgErr]. *)
Fixpoint attempts (tr : list Event) : list string :=
  match tr with
  | [] => []
  | Printed (MsgSent a _) :: r => a :: attempts r
  | Printed (MsgErr a) :: r => a :: attempts r
  | _ :: r => attempts r
  end.

(** ** Vocabulary of the properties *)

(** A configuration with other quiet hours, or other caps. *)
Definition with_quiet_hours (qs qe : Z) (c : Config) : Config := {|
  QUIET_START_HOUR := qs;
  QUIET_END_HOUR := qe;
  MAX_PER_DAY_TOTAL := MAX_PER_DAY_TOTAL c;
  MAX_PER_HOUR_TOTAL := MAX_PER_HOUR_TOTAL c;
  MAX_PER_DAY_PER_DOMAIN := MAX_PER_DAY_PER_DOMAIN c;
  PER_RUN_LIMIT := PER_RUN_LIMIT c;
  SMTP_PASS := SMTP_PASS c;
  BCC_DEFAULT := BCC_DEFAULT c;
  TEST_ADDRESS := TEST_ADDRESS c;
  HAS_MSVCRT := HAS_MSVCRT c
|}.

Definition with_caps (per_day per_hour : Z) (c : Config) : Config := {|
  QUIET_START_HOUR := QUIET_START_HOUR c;
  QUIET_END_HOUR := QUIET_END_HOUR c;
  MAX_PER_DAY_TOTAL := per_day;
  MAX_PER_HOUR_TOTAL := per_hour;
  MAX_PER_DAY_PER_DOMAIN := MAX_PER_DAY_PER_DOMAIN c;
  PER_RUN_LIMIT := PER_RUN_LIMIT c;
  SMTP_PASS := SMTP_PASS c;
  BCC_DEFAULT := BCC_DEFAULT c;
  TEST_ADDRESS := TEST_ADDRESS c;
  HAS_MSVCRT := HAS_MSVCRT c
|}.

(** The hours of the business profile of the delay sampler. *)
Definition business_hour (h : Z) : bool :=
  ((9 <=? h) && (h <? 12)) || ((14 <=? h) && (h <? 17)).

(** Section 4.1 in its own words: a record is of today when its
    timestamp, as an instant, falls on the current local calendar date;
    a text that is no instant falls on no date. *)
Definition falls_on_local_date (clk : Reading) (ts : string) : bool :=
  match fromisoformat ts with
  | Some t =>
      let local := add_us (astimezone_utc (zone clk) t) (zone clk) in
      bool_decide (on local = date_today clk)
  | None => false
  end.

Definition records_of_today (clk : Reading) (rows : list row) : Z :=
  count_if (λ r : row, falls_on_local_date clk (snd r)) rows.

(** A clock reading from the UTC fields and the zone offset in hours. *)
Definition reading (y mo d h mi s : Z) (zone_hours : Z) : Reading :=
  mkReading (mkdatetime (mkdate y mo d) h mi s 0 None)
    (zone_hours * 3600 * us_per_second).

(** A computation is quiet when it only moves the run forward and
    reports no attempt on the console. *)
Definition quiet {A} (m : M A) : Prop :=
  ∀ w, (step w ≤ step (run m w).1)%nat
       ∧ ∃ evs, trace (run m w).1 = trace w ++ evs ∧ attempts evs = [].

(** [tries m R]: whatever the world, the attempts [m] adds to the trace
    and the way [m] ends are related by [R]. *)
Definition tries {A} (m : M A) (R : list string → outcome A → Prop) : Prop :=
  ∀ w, ∃ evs, trace (run m w).1 = trace w ++ evs
              ∧ R (attempts evs) (run m w).2.

(** A pass through the loop body ends in state [s']. *)
Definition ends_in (r : outcome control) (s' : LoopState) : Prop :=
  r = Ret (Continue s') ∨ r = Ret (Break s').

(** The addresses [l] tried from state [s] are new to both exclusion
    sets and pairwise distinct. *)
Definition unseen (s : LoopState) (l : list string) : Prop :=
  NoDup l ∧ ∀ a, a ∈ l → (a ∉ already s) ∧ (a ∉ failed_once s).

(** From [s] to [s'] both exclusion sets only grow, and they take in
    every address of [l]. *)
Definition absorbed (s : LoopState) (l : list string) (s' : LoopState) : Prop :=
  already s ⊆ already s' ∧ failed_once s ⊆ failed_once s'
  ∧ ∀ a, a ∈ l → a ∈ already s' ∪ failed_once s'.

(** [returns m P]: whenever [m] yields a value, the value satisfies [P]. *)
Definition returns {A} (m : M A) (P : A → Prop) : Prop :=
  ∀ w, match (run m w).2 with Ret a => P a | Halt _ => True end.

(** The state carried by the way a pass through the body ends. *)
Definition state_of (c : control) : LoopState :=
  match c with Continue s => s | Break s => s end.

(** A world at the start of a process, and a clock that advances one
    minute per reading. *)
Definition fresh_world (lines : list string) : World := mkWorld 0 lines true [].

Definition minute_clock (y mo d h mi : Z) (zone_hours : Z) (n : nat) : Reading :=
  mkReading (add_minutes (mkdatetime (mkdate y mo d) h mi 0 0 None) (Z.of_nat n))
    (zone_hours * 3600 * us_per_second).

(** An environment in which the SMTP server refuses every message. *)
Definition refusing_env : Env := {|
  clock := minute_clock 2024 1 2 10 0 0;
  reachable := λ _, true;
  keypress := λ _, None;
  delivered := λ _, false;
  lognormal := λ _, (30 # 1)%Q;
  entropy := λ _, 0;
  appended_by_others := λ _, [];
  emails_txt := Some ["a@x.com"; "c@y.com"];
  argv := ["bulk_email_scheduler.py"]
|}.

(** An environment in which another writer adds a record to SENT_LOG
    while the process waits for the next hour. *)
Definition shared_log_env : Env := {|
  clock := λ n, match n with
                | O => reading 2024 1 2 10 59 0 0
                | _ => reading 2024 1 2 11 0 5 0
                end;
  reachable := λ _, true;
  keypress := λ _, None;
  delivered := λ _, true;
  lognormal := λ _, (30 # 1)%Q;
  entropy := λ _, 0;
  appended_by_others := λ n, match n with
                             | 3%nat => ["z@w.com;2024-01-02T10:59:30+00:00"]
                             | _ => []
                             end;
  emails_txt := Some ["a@x.com"; "c@y.com"];
  argv := ["bulk_email_scheduler.py"]
|}.

(** The loop state after one send this hour, to [a@x.com] at 10:10 UTC. *)
Definition state_at_cap : LoopState :=
  mkLoop [("a@x.com", "2024-01-02T10:10:00+00:00")] {["a@x.com"]}
    {["x.com" := 1]} 1 1 1 (Some "x.com") ∅.

(** ** Error classification

    The errors [is_soft_error] tells apart. In [smtplib] an
    [SMTPConnectError] is itself an [SMTPResponseException];
    [SMTPServerDisconnected] is not. [connect] says that the response
    error is an [SMTPConnectError]. *)
Inductive Exception :=
| ResponseError (connect : bool) (smtp_code : Z)
| ServerDisconnected
| Timeout
| OtherException.

Definition is_soft_error (err : Exception) : bool :=
  match err with
  | ResponseError connect code =>
      if (400 <=? code) && (code <? 500) then true
      else if bool_decide (code ∈ [421; 450; 451; 452]) then true
      else if code =? 535 then false
      else if (500 <=? code) && (code <? 600) then true
      else connect
  | ServerDisconnected => true
  | Timeout => true
  | OtherException => false
  end.

(** A set of addresses all of which are their own case fold. *)
Definition folded (X : gset string) : Prop := ∀ a, a ∈ X → lower a = a.

(** One pass of the loop leaves [today_total] and [sent_count] as they
    are or adds one to both. *)
Definition counted (s s' : LoopState) : Prop :=
  (today_total s' = today_total s ∧ sent_count s' = sent_count s)
  ∨ (today_total s' = today_total s + 1 ∧ sent_count s' = sent_count s + 1).

(** Both exclusion sets of a loop state hold case-folded addresses. *)
Definition folded_state (s : LoopState) : Prop :=
  folded (already s) ∧ folded (failed_once s).

(** A text that begins with white space. *)
Definition head_space (s : string) : bool :=
  match s with
  | String c _ => is_space c
  | EmptyString => false
  end.

(** [stops m H]: whenever [m] stops short of a value, it does so in a
    way that [H] allows. *)
Definition stops {A} (m : M A) (H : halt → Prop) : Prop :=
  ∀ w, match (run m w).2 with Ret _ => True | Halt h => H h end.


(** [State.bcc_on] after the keys [ks] are read from the state [b]: each
    [o], in either case, flips it. *)
Fixpoint toggled (b : bool) (ks : list ascii) : bool :=
  match ks with
  | [] => b
  | k :: r => toggled (if Ascii.eqb (lower_ascii k) "o" then negb b else b) r
  end.

(** A key that is neither [q] nor [t], in either case. *)
Definition plain_key (k : ascii) : bool :=
  negb (Ascii.eqb (lower_ascii k) "q") && negb (Ascii.eqb (lower_ascii k) "t").

(** A reading whose UTC fields are those of a date and a time of day
    that [datetime] accepts. *)
Definition valid_reading (clk : Reading) : bool :=
  let t := utc clk in
  valid_date (on t) && (year (on t) <=? 9999)
  && valid_time (hour t) (minute t) (second t) (microsecond t).


(** What [load_emails] reads in the environment [E]. *)
Definition recipients (E : Env) : list string :=
  match emails_txt E with
  | Some lines => load_lines lines
  | None => []
  end.

(** [keeps R m]: [R] relates the world in which [m] starts to the world
    it leaves, however it ends. *)
Definition keeps {A} (R : relation World) (m : M A) : Prop :=
  ∀ w, R w (run m w).1.

(** The trace has grown by events that all satisfy [P]. *)
Definition emitting (P : Event → Prop) : relation World :=
  λ w w', ∃ evs, trace w' = trace w ++ evs ∧ Forall P evs.

(** The log file holds the same lines. *)
Definition same_log : relation World := λ w w', sent_log w' = sent_log w.

(** A message handed to the server goes to the test address or to the
    case fold of a recipient of the list, and its [Bcc] header, if it has
    one, is the non-empty [BCC_DEFAULT]. *)
Definition addressed (cfg : Config) (E : Env) (e : Event) : Prop :=
  match e with
  | Smtp msg _ =>
      (msg_to msg = TEST_ADDRESS cfg
       ∨ ∃ a, a ∈ recipients E ∧ msg_to msg = lower a)
      ∧ (msg_bcc msg = None
         ∨ (msg_bcc msg = Some (BCC_DEFAULT cfg)
            ∧ nonempty (BCC_DEFAULT cfg) = true))
  | _ => True
  end.

(** A message handed to the server goes to the test address. *)
Definition test_mail (cfg : Config) (e : Event) : Prop :=
  match e with
  | Smtp msg _ => msg_to msg = TEST_ADDRESS cfg
  | _ => True
  end.

(** A pause of at most fifteen seconds. *)
Definition short_sleep (e : Event) : Prop :=
  match e with
  | Slept us => us ≤ 15 * us_per_second
  | _ => True
  end.

(** An environment of a run started with [--test], off line at the
    first look. *)
Definition test_env : Env := {|
  clock := minute_clock 2024 1 2 10 0 0;
  reachable := λ n, match n with O => false | _ => true end;
  keypress := λ _, None;
  delivered := λ _, true;
  lognormal := λ _, (30 # 1)%Q;
  entropy := λ _, 0;
  appended_by_others := λ _, [];
  emails_txt := None;
  argv := ["bulk_email_scheduler.py"; "--test"]
|}.

(** * Properties *)

(** ** Recipient selector *)

Section SelectorFacts.
Variable cfg : Config.
Variables (already_sent failed_once : gset string).
Variable used_domains_today : gmap string Z.

(** An entry of the list may be picked: it is in neither exclusion
    set (case-folded) and its domain is under the daily cap. *)
Definition eligible (addr : string) : bool :=
  let low := lower addr in
  negb (bool_decide (low ∈ already_sent))
  && negb (bool_decide (low ∈ failed_once))
  && (get0 used_domains_today (domain_of low) <? MAX_PER_DAY_PER_DOMAIN cfg).

Definition other_domain (d : string) (addr : string) : bool :=
  negb (bool_decide (domain_of (lower addr) = d)).

(** The first entry of a list that passes a test. *)
Fixpoint first_such (p : string → bool) (l : list string) : option string :=
  match l with
  | [] => None
  | a :: r => if p a then Some a else first_such p r
  end.

(** The choice as section 4.5 words it: the first eligible entry of
    another domain than the last one, else the first eligible entry. *)
Definition rotation_choice (emails : list string) (d : string) : option string :=
  match first_such (λ a, eligible a && other_domain d a) emails with
  | Some a => Some (lower a)
  | None => lower <$> first_such eligible emails
  end.

Lemma first_such_Some p l a :
  first_such p l = Some a → a ∈ l ∧ p a = true.
Proof.
  induction l as [|b l IH]; simpl; [done|].
  destruct (p b) eqn:Hb.
  - intros [= ->]. split; [left | done].
  - intros H. destruct (IH H) as [? ?]. split; [by right | done].
Qed.

Lemma first_such_None p l :
  first_such p l = None → ∀ a, a ∈ l → p a = false.
Proof.
  induction l as [|b l IH]; simpl; intros H a Ha.
  - by apply elem_of_nil in Ha.
  - destruct (p b) eqn:Hb; [done|].
    apply elem_of_cons in Ha as [-> | Ha]; [done | by apply IH].
Qed.

(** One step of the scan, by whether the entry is eligible. *)
Lemma scan_emails_skip addr rest last cand :
  eligible addr = false →
  scan_emails cfg (addr :: rest) already_sent used_domains_today last
    failed_once cand
  = scan_emails cfg rest already_sent used_domains_today last failed_once cand.
Proof.
  unfold eligible. simpl. intros H.
  destruct (bool_decide (lower addr ∈ already_sent)); [done|].
  destruct (bool_decide (lower addr ∈ failed_once)); [done|].
  simpl in *.
  destruct (Z.ltb_spec (get0 used_domains_today (domain_of (lower addr)))
              (MAX_PER_DAY_PER_DOMAIN cfg)); [done|].
  destruct (Z.leb_spec (MAX_PER_DAY_PER_DOMAIN cfg)
              (get0 used_domains_today (domain_of (lower addr)))); [done | lia].
Qed.

Lemma scan_emails_take addr rest last cand :
  eligible addr = true →
  scan_emails cfg (addr :: rest) already_sent used_domains_today last
    failed_once cand
  = if truthy last
       && negb (bool_decide (Some (domain_of (lower addr)) = last))
    then Some (lower addr)
    else scan_emails cfg rest already_sent used_domains_today last failed_once
           (match cand with None => Some (lower addr) | Some _ => cand end).
Proof.
  unfold eligible. simpl. intros H.
  destruct (bool_decide (lower addr ∈ already_sent)); [done|].
  destruct (bool_decide (lower addr ∈ failed_once)); [done|].
  simpl in *.
  destruct (Z.leb_spec (MAX_PER_DAY_PER_DOMAIN cfg)
              (get0 used_domains_today (domain_of (lower addr)))); [|done].
  apply Z.ltb_lt in H. lia.
Qed.

(** The scan with a set, non-empty last domain. *)
Lemma scan_emails_rotates emails d cand :
  d ≠ EmptyString →
  scan_emails cfg emails already_sent used_domains_today (Some d)
    failed_once cand
  = match first_such (λ a, eligible a && other_domain d a) emails with
    | Some a => Some (lower a)
    | None =>
        match cand with
        | Some c => Some c
        | None => lower <$> first_such eligible emails
        end
    end.
Proof.
  intros Hd. revert cand.
  induction emails as [|addr rest IH]; intros cand.
  - simpl. by destruct cand.
  - destruct (eligible addr) eqn:He.
    + rewrite scan_emails_take by done.
      assert (truthy (Some d) = true) as -> by (by destruct d).
      cbn [first_such andb]. rewrite He. cbn [andb]. unfold other_domain.
      destruct (decide (domain_of (lower addr) = d)) as [Heq|Hne].
      * rewrite (bool_decide_eq_true_2 (Some _ = Some d)) by congruence.
        rewrite (bool_decide_eq_true_2 (_ = d)) by done. cbn [negb].
        rewrite IH.
        destruct (first_such _ rest); [done|]. by destruct cand.
      * rewrite (bool_decide_eq_false_2 (Some _ = Some d)) by congruence.
        by rewrite (bool_decide_eq_false_2 (_ = d)) by done.
    + rewrite scan_emails_skip by done.
      cbn [first_such]. rewrite He. cbn [andb]. apply IH.
Qed.

(** The scan without a usable last domain: [None] or the empty text. *)
Lemma scan_emails_plain emails last cand :
  truthy last = false →
  scan_emails cfg emails already_sent used_domains_today last failed_once cand
  = match cand with
    | Some c => Some c
    | None => lower <$> first_such eligible emails
    end.
Proof.
  intros Hl. revert cand.
  induction emails as [|addr rest IH]; intros cand.
  - simpl. by destruct cand.
  - destruct (eligible addr) eqn:He.
    + rewrite scan_emails_take by done. rewrite Hl. cbn [andb].
      rewrite IH. cbn [first_such]. rewrite He. by destruct cand.
    + rewrite scan_emails_skip by done. rewrite IH.
      cbn [first_such]. by rewrite He.
Qed.

(** What the scan returns, whatever the last domain is. *)
Lemma scan_emails_sound emails last cand r :
  scan_emails cfg emails already_sent used_domains_today last failed_once cand
  = Some r →
  cand = Some r ∨ ∃ a, a ∈ emails ∧ eligible a = true ∧ r = lower a.
Proof.
  revert cand.
  induction emails as [|addr rest IH]; intros cand.
  - simpl. by left.
  - destruct (eligible addr) eqn:He.
    + rewrite scan_emails_take by done.
      destruct (_ && _).
      * intros [= <-]. right. exists addr. split; [left | done].
      * intros H. apply IH in H as [H | (a & Ha & Hel & ->)].
        -- destruct cand; [by left|]. injection H as <-.
           right. exists addr. split; [left | done].
        -- right. exists a. split; [by right | done].
    + rewrite scan_emails_skip by done. intros H.
      apply IH in H as [H | (a & Ha & Hel & ->)]; [by left|].
      right. exists a. split; [by right | done].
Qed.

Lemma scan_emails_None emails last cand :
  scan_emails cfg emails already_sent used_domains_today last failed_once cand
  = None →
  cand = None ∧ ∀ a, a ∈ emails → eligible a = false.
Proof.
  revert cand.
  induction emails as [|addr rest IH]; intros cand.
  - simpl. intros ->. split; [done|]. intros a Ha. by apply elem_of_nil in Ha.
  - destruct (eligible addr) eqn:He.
    + rewrite scan_emails_take by done.
      destruct (_ && _); [done|].
      intros H. apply IH in H as [H _]. by destruct cand.
    + rewrite scan_emails_skip by done. intros H.
      apply IH in H as [-> H]. split; [done|].
      intros a Ha. apply elem_of_cons in Ha as [-> | Ha]; [done | by apply H].
Qed.

Lemma eligible_true addr :
  eligible addr = true →
  (lower addr ∉ already_sent) ∧ (lower addr ∉ failed_once)
  ∧ get0 used_domains_today (domain_of (lower addr)) < MAX_PER_DAY_PER_DOMAIN cfg.
Proof.
  unfold eligible. intros H.
  apply andb_prop in H as [H H3]. apply andb_prop in H as [H1 H2].
  apply negb_true_iff, bool_decide_eq_false in H1.
  apply negb_true_iff, bool_decide_eq_false in H2.
  apply Z.ltb_lt in H3. done.
Qed.

End SelectorFacts.

(** C4 (as amended). When the last domain is set and is not the empty
    text, the selector returns the case-folded first eligible entry whose
    domain differs from it, and only if the whole list has none, the first
    eligible entry. In particular, for entries of domains [A, A, B] with
    [A] the last domain, nothing excluded and every counter under the cap,
    it returns the [B] entry. With the empty text as last domain it
    returns the first eligible entry, as with no last domain. *)
Theorem first_unsent_rotating_prefers_other_domain
    (cfg : Config) (emails : list string) (already_sent failed_once : gset string)
    (used_domains_today : gmap string Z) (d : string) :
  d ≠ EmptyString →
  first_unsent_rotating cfg emails already_sent used_domains_today (Some d)
    failed_once
  = rotation_choice cfg already_sent failed_once used_domains_today emails d
  ∧ (∀ a1 a2 b : string,
      domain_of (lower a1) = d → domain_of (lower a2) = d →
      domain_of (lower b) ≠ d →
      (∀ k, get0 used_domains_today k < MAX_PER_DAY_PER_DOMAIN cfg) →
      first_unsent_rotating cfg [a1; a2; b] ∅ used_domains_today (Some d) ∅
      = Some (lower b))
  ∧ first_unsent_rotating cfg emails already_sent used_domains_today
      (Some EmptyString) failed_once
    = first_unsent_rotating cfg emails already_sent used_domains_today
        None failed_once.
Proof.
  intros Hd. split; [|split].
  - unfold first_unsent_rotating, rotation_choice.
    by rewrite scan_emails_rotates.
  - intros a1 a2 b H1 H2 Hb Hcap.
    unfold first_unsent_rotating. rewrite scan_emails_rotates by done.
    assert (∀ a, eligible cfg ∅ ∅ used_domains_today a = true) as Hel.
    { intros a. unfold eligible.
      rewrite !bool_decide_eq_false_2 by set_solver. simpl.
      apply Z.ltb_lt, Hcap. }
    cbn [first_such]. rewrite !Hel. unfold other_domain. cbn [andb].
    rewrite (bool_decide_eq_true_2 _ H1), (bool_decide_eq_true_2 _ H2),
      (bool_decide_eq_false_2 _ Hb).
    done.
  - unfold first_unsent_rotating. by rewrite !scan_emails_plain.
Qed.

Lemma first_unsent_rotating_prefers_other_domain_witness :
  first_unsent_rotating default_config ["a@x.com"; "B@x.com"; "c@Y.com"] ∅ ∅
    (Some "x.com") ∅
  = rotation_choice default_config ∅ ∅ ∅ ["a@x.com"; "B@x.com"; "c@Y.com"] "x.com".
Proof.
  refine (proj1 (first_unsent_rotating_prefers_other_domain default_config
                   ["a@x.com"; "B@x.com"; "c@Y.com"] ∅ ∅ ∅ "x.com" _)).
  discriminate.
Defined.

(** C4 fails as stated: with the empty text as last domain (left by an
    entry such as [a@]) the selector does not rotate. *)
Lemma first_unsent_rotating_empty_last_domain :
  first_unsent_rotating default_config ["a@"; "c@"; "b@x.com"] ∅ ∅ (Some "") ∅
  = Some "a@"
  ∧ rotation_choice default_config ∅ ∅ ∅ ["a@"; "c@"; "b@x.com"] ""
    = Some "b@x.com".
Proof. split; vm_compute; reflexivity. Qed.

(** C5. The selector returns only the case fold of a list entry that is
    in neither [already_sent] nor [failed_once] and whose domain is under
    the daily cap, and it returns [None] exactly when no entry of the list
    is eligible. *)
Theorem first_unsent_rotating_respects_exclusions
    (cfg : Config) (emails : list string) (already_sent failed_once : gset string)
    (used_domains_today : gmap string Z) (last_domain : option string) :
  match first_unsent_rotating cfg emails already_sent used_domains_today
          last_domain failed_once with
  | Some r =>
      (r ∉ already_sent) ∧ (r ∉ failed_once)
      ∧ get0 used_domains_today (domain_of r) < MAX_PER_DAY_PER_DOMAIN cfg
      ∧ ∃ a, a ∈ emails ∧ r = lower a
  | None => True
  end
  ∧ (first_unsent_rotating cfg emails already_sent used_domains_today
       last_domain failed_once = None
     ↔ ∀ a, a ∈ emails →
            eligible cfg already_sent failed_once used_domains_today a = false).
Proof.
  unfold first_unsent_rotating.
  destruct (scan_emails _ _ _ _ _ _ _) as [r|] eqn:Hscan.
  - apply scan_emails_sound in Hscan as [? | (a & Ha & Hel & ->)]; [done|].
    pose proof (eligible_true _ _ _ _ _ Hel) as (H1 & H2 & H3).
    split; [eauto 10|].
    split; [done|]. intros Hall. rewrite (Hall a Ha) in Hel. done.
  - apply scan_emails_None in Hscan as [_ Hall]. done.
Qed.

(** ** Quiet-window policy *)

Lemma lex_lt_cons x a y b :
  lex_lt (x :: a) (y :: b) = true ↔ x < y ∨ (x = y ∧ lex_lt a b = true).
Proof.
  simpl. rewrite orb_true_iff, andb_true_iff, Z.ltb_lt, Z.eqb_eq. tauto.
Qed.

(** The day after is later in the field-by-field order. *)
Lemma next_day_later (d : date) h mi s us h' mi' s' us' o o' :
  lt (mkdatetime d h mi s us o) (mkdatetime (next_day d) h' mi' s' us' o') = true.
Proof.
  unfold lt, key, next_day. cbn [on hour minute second microsecond].
  destruct (Z.ltb_spec (day d) (days_in_month (year d) (month d)));
    [|destruct (Z.ltb_spec (month d) 12)]; cbn [year month day].
  - rewrite !lex_lt_cons. right; split; [done|]. right; split; [done|].
    left. lia.
  - rewrite !lex_lt_cons. right; split; [done|]. left. lia.
  - rewrite !lex_lt_cons. left. lia.
Qed.

Lemma same_day_later_hour (t : datetime) h mi :
  hour t < h → lt t (mkdatetime (on t) h mi 0 0 None) = true.
Proof.
  intros Hh. unfold lt, key. cbn [on hour minute second microsecond].
  rewrite !lex_lt_cons.
  right; split; [done|]. right; split; [done|]. right; split; [done|].
  by left.
Qed.

(** C6 (as amended). With both hours in 0..23 and the quiet window
    spanning midnight ([QUIET_START_HOUR > QUIET_END_HOUR]), the next
    active boundary computed at any instant [now] is strictly after
    [now], is at [QUIET_END_HOUR]:00:00, and is not in the quiet
    window. *)
Theorem next_start_of_day_at_boundary (cfg : Config) (now : datetime) :
  0 ≤ QUIET_START_HOUR cfg ≤ 23 →
  0 ≤ QUIET_END_HOUR cfg ≤ 23 →
  QUIET_END_HOUR cfg < QUIET_START_HOUR cfg →
  ∃ b, next_start_of_day_at now (QUIET_END_HOUR cfg) 0 = Some b
       ∧ lt now b = true
       ∧ hour b = QUIET_END_HOUR cfg ∧ minute b = 0 ∧ second b = 0
       ∧ in_quiet_hours cfg b = false.
Proof.
  intros Hs He Hspan. unfold next_start_of_day_at, combine.
  assert (valid_time (QUIET_END_HOUR cfg) 0 0 0 = true) as ->.
  { unfold valid_time. repeat (apply andb_true_intro; split); lia. }
  eexists. split; [reflexivity|].
  split; [|split; [done|split; [done|split; [done|]]]].
  - destruct (Z.leb_spec (QUIET_END_HOUR cfg) (hour now)).
    + destruct now. apply next_day_later.
    + by apply same_day_later_hour.
  - unfold in_quiet_hours. cbn [hour].
    apply orb_false_intro; [apply Z.leb_gt | apply Z.ltb_ge]; lia.
Qed.

Lemma next_start_of_day_at_boundary_witness :
  ∃ b, next_start_of_day_at (mkdatetime (mkdate 2024 12 31) 23 10 0 0 None) 7 0
       = Some b
       ∧ lt (mkdatetime (mkdate 2024 12 31) 23 10 0 0 None) b = true
       ∧ hour b = 7 ∧ minute b = 0 ∧ second b = 0
       ∧ in_quiet_hours default_config b = false.
Proof.
  apply (next_start_of_day_at_boundary default_config
           (mkdatetime (mkdate 2024 12 31) 23 10 0 0 None));
    simpl; lia.
Defined.

(** C6 fails as stated: for hours in 0..23 with
    [QUIET_START_HOUR <= QUIET_END_HOUR] every hour is quiet, the
    boundary included. *)
Lemma next_start_of_day_at_boundary_quiet :
  let cfg := with_quiet_hours 0 7 default_config in
  ∃ b, next_start_of_day_at (mkdatetime (mkdate 2024 1 2) 6 30 0 0 None)
         (QUIET_END_HOUR cfg) 0 = Some b
       ∧ in_quiet_hours cfg b = true.
Proof. eexists. split; reflexivity. Qed.

(** ** Delay sampler *)

Lemma randint_of_range a b raw : a ≤ b → a ≤ randint_of a b raw ≤ b.
Proof.
  intros Hab. unfold randint_of.
  pose proof (Z.mod_pos_bound raw (b - a + 1)). lia.
Qed.

Lemma profile_at_values h :
  (lo (profile_at h), hi (profile_at h))
  = if business_hour h then (22, 45) else (55, 100).
Proof. unfold profile_at, business_hour. by destruct (_ || _). Qed.

Lemma biased_delay_minutes_clamped now_local x j :
  0 ≤ j ≤ 5 →
  lo (profile_at (hour now_local)) ≤ biased_delay_minutes now_local x j
  ≤ hi (profile_at (hour now_local)) + 5.
Proof.
  intros Hj. unfold biased_delay_minutes.
  pose proof (profile_at_values (hour now_local)) as Hp.
  destruct (business_hour _); injection Hp as -> ->; lia.
Qed.

(** C7. Whatever the local hour and whatever the random source yields
    (the log-normal draw [x], the raw material [raw] of
    [randint(0, 5)]), the sampled minutes lie in [[lo, hi + 5]] for the
    profile of that hour: 22 and 45 in business hours, 55 and 100
    otherwise. Every jitter from 0 to 5 is a draw of [randint(0, 5)],
    and the bound holds for each. *)
Theorem biased_delay_minutes_in_range (now_local : datetime) (x : Q) (raw : Z) :
  let p := profile_at (hour now_local) in
  let v := biased_delay_minutes now_local x (randint_of 0 5 raw) in
  lo p ≤ v ≤ hi p + 5
  ∧ (lo p, hi p) = (if business_hour (hour now_local) then (22, 45) else (55, 100))
  ∧ ∀ j, 0 ≤ j ≤ 5 →
         randint_of 0 5 j = j
         ∧ lo p ≤ biased_delay_minutes now_local x j ≤ hi p + 5.
Proof.
  cbv zeta. split; [|split].
  - apply biased_delay_minutes_clamped, randint_of_range. lia.
  - apply profile_at_values.
  - intros j Hj. split; [|by apply biased_delay_minutes_clamped].
    unfold randint_of. rewrite Z.mod_small; lia.
Qed.

(** ** Counter deriver *)

Lemma count_if_app {A} (p : A → bool) (l1 l2 : list A) :
  count_if p (l1 ++ l2) = count_if p l1 + count_if p l2.
Proof. induction l1 as [|x l1 IH]; simpl; [done | rewrite IH; lia]. Qed.

Lemma count_if_insert {A} (p : A → bool) (l1 l2 : list A) (x : A) :
  count_if p (l1 ++ x :: l2) = (if p x then 1 else 0) + count_if p (l1 ++ l2).
Proof. rewrite !count_if_app. simpl. lia. Qed.

(** C2 fails on the code. A send made at 00:45 local time in a zone two
    hours east of UTC is stamped by [append_sent] with the UTC date of
    the day before; read back later the same local day, the record falls
    on the current local date and [count_today] does not count it. *)
Theorem count_today_misses_send_after_local_midnight :
  let sent_at := reading 2024 1 1 22 45 0 2 in
  let later := reading 2024 1 2 8 0 0 2 in
  let rows := parse_lines [sent_line sent_at "a@x.com"] in
  rows = [("a@x.com", "2024-01-01T22:45:00+00:00")]
  ∧ date_today sent_at = mkdate 2024 1 2
  ∧ date_today later = mkdate 2024 1 2
  ∧ records_of_today later rows = 1
  ∧ count_today later rows = 0.
Proof. vm_compute. repeat split. Qed.

(** C8 (as amended). The counters are total: no row makes them fail. A
    record whose timestamp is no instant adds nothing to the count of
    this hour; it adds nothing to the count of today, nor to that of any
    domain, unless its text begins with the current local date, and then
    it counts as a record of today. *)
Theorem malformed_timestamp_counts
    (clk : Reading) (rows1 rows2 : list row) (em ts dom : string) :
  fromisoformat ts = None →
  count_this_hour clk (rows1 ++ (em, ts) :: rows2)
  = count_this_hour clk (rows1 ++ rows2)
  ∧ (startswith ts (date_isoformat (date_today clk)) = false →
     count_today clk (rows1 ++ (em, ts) :: rows2) = count_today clk (rows1 ++ rows2)
     ∧ count_today_domain clk (rows1 ++ (em, ts) :: rows2) dom
       = count_today_domain clk (rows1 ++ rows2) dom)
  ∧ (startswith ts (date_isoformat (date_today clk)) = true →
     count_today clk (rows1 ++ (em, ts) :: rows2)
     = 1 + count_today clk (rows1 ++ rows2)
     ∧ count_today_domain clk (rows1 ++ (em, ts) :: rows2) (domain_of em)
       = 1 + count_today_domain clk (rows1 ++ rows2) (domain_of em)).
Proof.
  intros Hbad. unfold count_this_hour, count_today, count_today_domain.
  rewrite !count_if_insert. cbn [fst snd].
  split; [|split].
  - unfold within_hour. by rewrite Hbad.
  - intros ->. done.
  - intros ->. by rewrite bool_decide_eq_true_2.
Qed.

Lemma malformed_timestamp_counts_witness :
  let clk := reading 2024 1 2 8 0 0 2 in
  count_this_hour clk ([] ++ ("a@x.com", "yesterday") :: [])
  = count_this_hour clk ([] ++ []).
Proof.
  refine (proj1 (malformed_timestamp_counts (reading 2024 1 2 8 0 0 2)
                   [] [] "a@x.com" "yesterday" "x.com" _)).
  reflexivity.
Defined.

(** C8 fails as stated: a timestamp that is no instant but begins with
    today's date is counted in the totals of today. *)
Lemma malformed_timestamp_counted_today :
  let clk := reading 2024 1 2 8 0 0 2 in
  let rows := [("a@x.com", "2024-01-02Txx:yy")] in
  fromisoformat "2024-01-02Txx:yy" = None
  ∧ count_today clk rows = 1
  ∧ count_today_domain clk rows "x.com" = 1.
Proof. vm_compute. repeat split. Qed.

(** ** Effects: how runs compose *)

Lemma run_bind {A B} (m : M A) (k : A → M B) (w : World) :
  run (m ≫= k) w
  = match run m w with
    | (w', Ret a) => run (k a) w'
    | (w', Halt h) => (w', Halt h)
    end.
Proof. reflexivity. Qed.

Lemma attempts_app (a b : list Event) :
  attempts (a ++ b) = attempts a ++ attempts b.
Proof.
  induction a as [|e a IH]; [done|].
  destruct e as [[]| |]; simpl; by rewrite ?IH.
Qed.

Lemma quiet_ret {A} (a : A) : quiet (mret a).
Proof. intros w. split; [done|]. exists []. by rewrite app_nil_r. Qed.

Lemma quiet_halt {A} (h : halt) : quiet (mkM (λ w, (w, @Halt A h))).
Proof. intros w. split; [done|]. exists []. by rewrite app_nil_r. Qed.

Lemma quiet_bind {A B} (m : M A) (k : A → M B) :
  quiet m → (∀ a, quiet (k a)) → quiet (m ≫= k).
Proof.
  intros Hm Hk w. rewrite run_bind.
  destruct (Hm w) as [Hs (e1 & Ht & Ha)].
  destruct (run m w) as [w1 [a|h]]; simpl in *.
  - destruct (Hk a w1) as [Hs' (e2 & Ht' & Ha')].
    split; [lia|]. exists (e1 ++ e2).
    by rewrite Ht', Ht, attempts_app, Ha, Ha', app_assoc.
  - split; [done|]. by exists e1.
Qed.

Lemma quiet_try_except {A} (m : M A) (h : exn → M A) :
  quiet m → (∀ e, quiet (h e)) → quiet (try_except m h).
Proof.
  intros Hm Hh w. unfold try_except. cbn [run].
  destruct (Hm w) as [Hs (e1 & Ht & Ha)].
  destruct (run m w) as [w1 [a|[e| |]]]; simpl in *;
    try (split; [done|]; by exists e1).
  destruct (Hh e w1) as [Hs' (e2 & Ht' & Ha')].
  split; [lia|]. exists (e1 ++ e2).
  by rewrite Ht', Ht, attempts_app, Ha, Ha', app_assoc.
Qed.

Lemma quiet_tick : quiet tick.
Proof. intros w. split; [simpl; lia|]. exists []. by rewrite app_nil_r. Qed.

Lemma quiet_emit (e : Event) : attempts [e] = [] → quiet (emit e).
Proof. intros He w. split; [done|]. by exists [e]. Qed.

Lemma quiet_get_bcc_on : quiet get_bcc_on.
Proof. intros w. split; [done|]. exists []. by rewrite app_nil_r. Qed.

Lemma quiet_set_bcc_on b : quiet (set_bcc_on b).
Proof. intros w. split; [done|]. exists []. by rewrite app_nil_r. Qed.

Lemma quiet_get_sent_log : quiet get_sent_log.
Proof. intros w. split; [done|]. exists []. by rewrite app_nil_r. Qed.

Lemma quiet_set_sent_log l : quiet (set_sent_log l).
Proof. intros w. split; [done|]. exists []. by rewrite app_nil_r. Qed.

Create HintDb quiet.

#[local] Hint Resolve quiet_ret quiet_tick quiet_get_bcc_on quiet_set_bcc_on
  quiet_get_sent_log quiet_set_sent_log : quiet.

(** Break a goal [quiet m] down along the shape of [m]. *)
Ltac quiet_step :=
  match goal with
  | |- quiet (_ ≫= _) => apply quiet_bind; [|intros]
  | |- quiet (try_except _ _) => apply quiet_try_except; [|intros]
  | |- quiet (if ?b then _ else _) => destruct b
  | |- quiet (match ?x with _ => _ end) => destruct x
  | |- quiet (print _) => apply quiet_emit; reflexivity
  | |- quiet (sleep _) => apply quiet_emit; reflexivity
  | |- quiet (emit _) => apply quiet_emit; reflexivity
  | |- quiet raise => apply quiet_halt
  | |- quiet (raise _) => apply quiet_halt
  | |- quiet sys_exit => apply quiet_halt
  | |- quiet out_of_fuel => apply quiet_halt
  | |- quiet _ => solve [eauto with quiet]
  end.

Ltac quiet_auto := repeat quiet_step.

Section QuietEffects.
Variable cfg : Config.
Variable E : Env.

Lemma quiet_read_clock : quiet (read_clock E).
Proof. unfold read_clock. quiet_auto. Qed.

Lemma quiet_has_connectivity : quiet (has_connectivity E).
Proof. unfold has_connectivity. quiet_auto. Qed.

Lemma quiet_lognormvariate a b : quiet (lognormvariate E a b).
Proof. unfold lognormvariate. quiet_auto. Qed.

Lemma quiet_randint a b : quiet (randint E a b).
Proof. unfold randint. quiet_auto. Qed.

Lemma quiet_kbhit_getwch : quiet (kbhit_getwch E).
Proof. unfold kbhit_getwch. quiet_auto. Qed.

Lemma quiet_smtp_send_one msg : quiet (smtp_send_one cfg E msg).
Proof. unfold smtp_send_one. quiet_auto. Qed.

Lemma quiet_parse_sent_log : quiet (parse_sent_log E).
Proof. unfold parse_sent_log. quiet_auto. Qed.

Lemma quiet_append_sent email : quiet (append_sent E email).
Proof. unfold append_sent. quiet_auto; apply quiet_read_clock. Qed.

Lemma quiet_load_emails : quiet (load_emails E).
Proof. unfold load_emails. quiet_auto. Qed.

Lemma quiet_or_value_error {A} (o : option A) : quiet (or_value_error o).
Proof. unfold or_value_error. quiet_auto. Qed.

Hint Resolve quiet_read_clock quiet_has_connectivity quiet_lognormvariate
  quiet_randint quiet_kbhit_getwch quiet_smtp_send_one quiet_parse_sent_log
  quiet_append_sent quiet_load_emails quiet_or_value_error : quiet.

Lemma quiet_drain_keys fuel : quiet (drain_keys cfg E fuel).
Proof.
  induction fuel as [|fuel IH]; cbn [drain_keys]; quiet_auto.
Qed.

Lemma quiet_hotkey_loop fuel during_wait :
  quiet (_hotkey_loop cfg E fuel during_wait).
Proof. unfold _hotkey_loop. quiet_auto. apply quiet_drain_keys. Qed.

Hint Resolve quiet_drain_keys quiet_hotkey_loop : quiet.

Lemma quiet_wait_for_connectivity fuel : quiet (wait_for_connectivity cfg E fuel).
Proof. induction fuel as [|fuel IH]; cbn [wait_for_connectivity]; quiet_auto. Qed.

Lemma quiet_wait_until fuel target : quiet (wait_until cfg E fuel target).
Proof. induction fuel as [|fuel IH]; cbn [wait_until]; quiet_auto. Qed.

Hint Resolve quiet_wait_for_connectivity quiet_wait_until : quiet.

Lemma quiet_ensure_business_window fuel :
  quiet (ensure_business_window cfg E fuel).
Proof. unfold ensure_business_window. quiet_auto. Qed.

Lemma quiet_await_connectivity fuel : quiet (await_connectivity cfg E fuel).
Proof. unfold await_connectivity. quiet_auto. Qed.

Lemma quiet_tally_domains rows used : quiet (tally_domains E rows used).
Proof.
  revert used. induction rows as [|[em ts] rows IH]; intros used;
    cbn [tally_domains]; quiet_auto.
Qed.

Lemma quiet_hourly_gate fuel s : quiet (hourly_gate cfg E fuel s).
Proof. unfold hourly_gate. quiet_auto. Qed.

Lemma quiet_plan_and_wait fuel s : quiet (plan_and_wait cfg E fuel s).
Proof.
  unfold plan_and_wait. quiet_auto. apply quiet_await_connectivity.
Qed.

Lemma quiet_main_test : quiet (main_test cfg E).
Proof. unfold main_test. quiet_auto. Qed.

End QuietEffects.

#[local] Hint Resolve quiet_read_clock quiet_has_connectivity
  quiet_lognormvariate quiet_randint quiet_kbhit_getwch quiet_smtp_send_one
  quiet_parse_sent_log quiet_append_sent quiet_load_emails
  quiet_or_value_error quiet_drain_keys quiet_hotkey_loop
  quiet_wait_for_connectivity quiet_wait_until quiet_ensure_business_window
  quiet_await_connectivity quiet_tally_domains quiet_hourly_gate
  quiet_plan_and_wait quiet_main_test : quiet.

(** ** Attempts of the run loop *)

Lemma lower_ascii_idem (c : ascii) : lower_ascii (lower_ascii c) = lower_ascii c.
Proof. by destruct c as [[] [] [] [] [] [] [] []]. Qed.

Lemma lower_idem (s : string) : lower (lower s) = lower s.
Proof.
  induction s as [|c s IH]; [done|]. simpl. by rewrite lower_ascii_idem, IH.
Qed.

Lemma tries_weaken {A} (m : M A) (R R' : list string → outcome A → Prop) :
  tries m R → (∀ l r, R l r → R' l r) → tries m R'.
Proof.
  intros Hm HR w. destruct (Hm w) as (evs & Ht & Hr). exists evs. eauto.
Qed.

Lemma tries_ret {A} (a : A) (R : list string → outcome A → Prop) :
  R [] (Ret a) → tries (mret a) R.
Proof. intros HR w. exists []. by rewrite app_nil_r. Qed.

Lemma tries_quiet {A} (m : M A) (R : list string → outcome A → Prop) :
  quiet m → (∀ r, R [] r) → tries m R.
Proof.
  intros Hm HR w. destruct (Hm w) as [_ (evs & Ht & Ha)].
  exists evs. rewrite Ha. eauto.
Qed.

Lemma tries_bind {A B} (m : M A) (k : A → M B)
    (Q : list string → outcome A → Prop) (R : list string → outcome B → Prop) :
  tries m Q →
  (∀ a l1, Q l1 (Ret a) → tries (k a) (λ l2 r, R (l1 ++ l2) r)) →
  (∀ l1 h, Q l1 (Halt h) → R l1 (Halt h)) →
  tries (m ≫= k) R.
Proof.
  intros Hm Hk Hh w. rewrite run_bind.
  destruct (Hm w) as (e1 & Ht & HQ).
  destruct (run m w) as [w1 [a|h]]; simpl in *.
  - destruct (Hk a _ HQ w1) as (e2 & Ht' & HR).
    exists (e1 ++ e2). by rewrite Ht', Ht, attempts_app, app_assoc.
  - exists e1. eauto.
Qed.

Lemma tries_bind_quiet {A B} (m : M A) (k : A → M B)
    (R : list string → outcome B → Prop) :
  quiet m → (∀ a, tries (k a) R) → (∀ h, R [] (Halt h)) →
  tries (m ≫= k) R.
Proof.
  intros Hm Hk Hh.
  apply (tries_bind m k (λ l _, l = [])).
  - by apply tries_quiet.
  - intros a l1 ->. apply Hk.
  - intros l1 h ->. apply Hh.
Qed.

Section Attempts.
Variable cfg : Config.
Variable E : Env.

Lemma absorbed_on_success s addr : absorbed s [lower addr] (on_success s addr).
Proof.
  split; [apply union_subseteq_r|]. split; [done|].
  intros a Ha. apply list_elem_of_singleton in Ha as ->. cbn.
  by apply elem_of_union_l, elem_of_union_l, elem_of_singleton.
Qed.

Lemma absorbed_on_failure s addr : absorbed s [lower addr] (on_failure s addr).
Proof.
  split; [done|]. split; [apply union_subseteq_r|].
  intros a Ha. apply list_elem_of_singleton in Ha as ->. cbn.
  by apply elem_of_union_r, elem_of_union_l, elem_of_singleton.
Qed.

(** The transmission reports exactly one attempt and always returns,
    with the address in one of the two exclusion sets. *)
Lemma attempt_send_tries s addr :
  tries (attempt_send cfg E s addr)
    (λ l r, l = [addr] ∧ ∃ s', r = Ret s' ∧ absorbed s [lower addr] s').
Proof.
  intros w. unfold attempt_send, try_except, smtp_send_one.
  destruct (SMTP_PASS cfg); cbn [negb].
  - cbn. destruct (delivered E (step w)); cbn; rewrite <- ?app_assoc.
    + eexists. split; [reflexivity|]. split; [reflexivity|].
      eexists. split; [reflexivity|]. apply absorbed_on_success.
    + eexists. split; [reflexivity|]. split; [reflexivity|].
      eexists. split; [reflexivity|]. apply absorbed_on_failure.
  - cbn. eexists. split; [reflexivity|]. split; [reflexivity|].
    eexists. split; [reflexivity|]. apply absorbed_on_failure.
Qed.

(** It ends with the assignments of the [try] block or with those of
    the [except] block. *)
Lemma attempt_send_outcome s addr w :
  (run (attempt_send cfg E s addr) w).2 = Ret (on_success s addr)
  ∨ (run (attempt_send cfg E s addr) w).2 = Ret (on_failure s addr).
Proof.
  unfold attempt_send, try_except, smtp_send_one.
  destruct (SMTP_PASS cfg); cbn; [|by right].
  destruct (delivered E (step w)); cbn; [by left | by right].
Qed.

Lemma returns_ret {A} (a : A) (P : A → Prop) : P a → returns (mret a) P.
Proof. intros H w. exact H. Qed.

Lemma returns_bind {A B} (m : M A) (k : A → M B) (P : B → Prop) :
  (∀ a, returns (k a) P) → returns (m ≫= k) P.
Proof.
  intros Hk w. rewrite run_bind.
  destruct (run m w) as [w1 [a|h]]; [apply Hk | exact I].
Qed.

Lemma tries_quiet_returns {A} (m : M A) (P : A → Prop)
    (R : list string → outcome A → Prop) :
  quiet m → returns m P →
  (∀ r, match r with Ret a => P a | Halt _ => True end → R [] r) →
  tries m R.
Proof.
  intros Hq Hp HR w. destruct (Hq w) as [_ (evs & Ht & Ha)].
  exists evs. rewrite Ha. split; [done|]. apply HR, Hp.
Qed.

Ltac returns_auto :=
  repeat match goal with
  | |- returns (_ ≫= _) _ => apply returns_bind; intros
  | |- returns (if ?b then _ else _) _ => destruct b
  | |- returns (mret _) _ => apply returns_ret
  end.

Lemma plan_and_wait_same_state fuel s :
  returns (plan_and_wait cfg E fuel s) (λ c, state_of c = s).
Proof. unfold plan_and_wait. returns_auto; reflexivity. Qed.

Lemma ends_in_state (c : control) (s' : LoopState) :
  ends_in (Ret c) s' ↔ state_of c = s'.
Proof.
  unfold ends_in. destruct c; simpl; split;
    intros; try destruct_or!; simplify_eq; eauto.
Qed.

Lemma ends_in_halt (h : halt) (s' : LoopState) : ¬ ends_in (Halt h) s'.
Proof. by intros [?|?]. Qed.

Lemma unseen_nil s : unseen s [].
Proof. split; [constructor | intros a Ha; by apply elem_of_nil in Ha]. Qed.

Lemma absorbed_refl s : absorbed s [] s.
Proof. split; [done|]. split; [done|]. intros a Ha. by apply elem_of_nil in Ha. Qed.

(** Attempts made after the sets took in the earlier ones neither repeat
    them nor each other. *)
Lemma unseen_app s l1 s1 l2 :
  unseen s l1 → absorbed s l1 s1 → unseen s1 l2 → unseen s (l1 ++ l2).
Proof.
  intros [Hn1 Hf1] (Ha & Hf & Hin) [Hn2 Hf2]. split.
  - apply NoDup_app. split; [done|]. split; [|done].
    intros a Ha1 Ha2. destruct (Hf2 a Ha2) as [? ?].
    specialize (Hin a Ha1). by apply elem_of_union in Hin as [?|?].
  - intros a Hx. apply elem_of_app in Hx as [Hx|Hx]; [by apply Hf1|].
    destruct (Hf2 a Hx) as [Hx1 Hx2].
    split; intros Hc; [apply Hx1; by apply Ha | apply Hx2; by apply Hf].
Qed.

Lemma absorbed_app s l1 s1 l2 s2 :
  absorbed s l1 s1 → absorbed s1 l2 s2 → absorbed s (l1 ++ l2) s2.
Proof.
  intros (Ha & Hf & Hin) (Ha' & Hf' & Hin'). split; [by etrans|].
  split; [by etrans|]. intros a Hx.
  apply elem_of_app in Hx as [Hx|Hx]; [|by apply Hin'].
  specialize (Hin a Hx).
  apply elem_of_union in Hin as [?|?];
    [apply elem_of_union_l; by apply Ha' | apply elem_of_union_r; by apply Hf'].
Qed.

Lemma hourly_gate_keeps_sets fuel s :
  returns (hourly_gate cfg E fuel s)
    (λ c, already (state_of c) = already s
          ∧ failed_once (state_of c) = failed_once s).
Proof. unfold hourly_gate. returns_auto; done. Qed.

Lemma send_step_tries fuel s addr :
  tries (send_step cfg E fuel s addr)
    (λ l r, l = [addr] ∧ ∀ s', ends_in r s' → absorbed s [lower addr] s').
Proof.
  unfold send_step.
  eapply tries_bind; [apply attempt_send_tries| |].
  - intros s1 l1 (-> & s1' & [= <-] & Habs).
    assert (∀ m : M control,
              quiet m → returns m (λ c, state_of c = s1) →
              tries m (λ l2 r, [addr] ++ l2 = [addr]
                               ∧ ∀ s', ends_in r s' → absorbed s [lower addr] s'))
      as Htail.
    { intros m Hq Hr. eapply tries_quiet_returns; [done..|].
      intros [c|h] Hc; (split; [done|]); intros s' Hs'.
      - apply ends_in_state in Hs'. by subst.
      - by apply ends_in_halt in Hs'. }
    destruct (_ <=? _).
    + apply Htail; [quiet_auto | returns_auto; done].
    + apply Htail; [apply quiet_plan_and_wait | apply plan_and_wait_same_state].
  - intros l1 h (_ & s' & ? & _). done.
Qed.

(** One pass through the body: at most one attempt, on an address new
    to both sets, which one of the sets then takes in. *)
Lemma loop_body_tries fuel emails s :
  tries (loop_body cfg E fuel emails s)
    (λ l r, unseen s l ∧ ∀ s', ends_in r s' → absorbed s l s').
Proof.
  assert (∀ m : M control,
            quiet m →
            returns m (λ c, already (state_of c) = already s
                            ∧ failed_once (state_of c) = failed_once s) →
            tries m (λ l r, unseen s l ∧ ∀ s', ends_in r s' → absorbed s l s'))
    as Hsame.
  { intros m Hq Hr. eapply tries_quiet_returns; [done..|].
    intros [c|h] Hc; (split; [apply unseen_nil|]); intros s' Hs'.
    - apply ends_in_state in Hs'. subst s'. destruct Hc as [Ha Hf].
      split; [by rewrite Ha|]. split; [by rewrite Hf|].
      intros a Hx. by apply elem_of_nil in Hx.
    - by apply ends_in_halt in Hs'. }
  assert (∀ h s', ends_in (Halt h) s' → absorbed s [] s') as Hhalt.
  { intros h s' Hs'. by apply ends_in_halt in Hs'. }
  unfold loop_body. destruct (_ <=? _).
  { apply Hsame; [apply quiet_hourly_gate | apply hourly_gate_keeps_sets]. }
  destruct (first_unsent_rotating _ _ _ _ _ _) as [addr|] eqn:Hsel;
    [|apply Hsame; [quiet_auto | returns_auto; done]].
  destruct (negb (nonempty addr));
    [apply Hsame; [quiet_auto | returns_auto; done]|].
  apply scan_emails_sound in Hsel as [? | (a & _ & Hel & ->)]; [done|].
  apply eligible_true in Hel as (Ha & Hf & _).
  apply tries_bind_quiet; [apply quiet_hotkey_loop| |split; [apply unseen_nil|eauto]].
  intros ok. destruct (negb ok); [apply Hsame; [quiet_auto | returns_auto; done]|].
  apply tries_bind_quiet;
    [apply quiet_await_connectivity| |split; [apply unseen_nil|eauto]].
  intros ok'. destruct (negb ok'); [apply Hsame; [quiet_auto | returns_auto; done]|].
  eapply tries_weaken; [apply send_step_tries|].
  intros l r [-> Habs]. rewrite lower_idem in Habs. split; [|done].
  split; [apply NoDup_singleton|].
  intros x Hx. apply list_elem_of_singleton in Hx as ->. done.
Qed.

(** The loop, from any state: the attempts are pairwise distinct and new
    to both sets, which only grow and take them in. *)
Lemma main_loop_tries fuel emails s :
  tries (main_loop cfg E fuel emails s)
    (λ l r, unseen s l ∧ ∀ s', r = Ret s' → absorbed s l s').
Proof.
  revert s. induction fuel as [|fuel IH]; intros s; cbn [main_loop].
  { intros w. exists []. cbn. rewrite app_nil_r.
    split; [done|]. split; [apply unseen_nil | done]. }
  destruct (_ && _).
  - eapply tries_bind; [apply loop_body_tries| |].
    + intros c l1 [Hun Habs].
      specialize (Habs (state_of c) (proj2 (ends_in_state c _) eq_refl)).
      destruct c as [s1|s1]; simpl in Habs.
      * eapply tries_weaken; [apply IH|]. intros l2 r [Hun2 Habs2].
        split; [by eapply unseen_app|].
        intros s' Hr. eapply absorbed_app; eauto.
      * apply tries_ret. rewrite app_nil_r. split; [done|]. by intros s' [= <-].
    + intros l1 h [Hun _]. split; [done|]. done.
  - apply tries_ret. split; [apply unseen_nil|]. intros s' [= <-].
    apply absorbed_refl.
Qed.

(** Outside the loop [main] reports no attempt. *)
Lemma main_tries fuel : tries (main cfg E fuel) (λ l _, NoDup l).
Proof.
  assert (∀ (m : M unit), quiet m → tries m (λ l _, NoDup l)) as Hq.
  { intros m Hm. apply tries_quiet; [done|]. intros _. constructor. }
  unfold main. destruct (test_mode _).
  { apply Hq. quiet_auto. }
  repeat (apply tries_bind_quiet; [quiet_auto| |intros; constructor]; intros).
  destruct (_ <=? _); [apply Hq; quiet_auto|].
  apply tries_bind_quiet;
    [apply quiet_ensure_business_window| |intros; constructor].
  intros _.
  apply tries_bind_quiet; [apply quiet_await_connectivity| |intros; constructor].
  intros ok. destruct (negb ok); [apply Hq; quiet_auto|].
  eapply tries_bind; [apply main_loop_tries| |].
  - intros s1 l1 [[Hn _] _].
    eapply tries_quiet; [quiet_auto|]. intros _. by rewrite app_nil_r.
  - intros l1 h [[Hn _] _]. done.
Qed.

End Attempts.

(** C10. Within a run every address is tried at most once. The
    console lines of [main] that report an attempt name pairwise distinct
    (case-folded) addresses; from any loop state on, the addresses the
    loop tries are pairwise distinct and in neither exclusion set, both
    sets only grow, and when the loop returns every address tried is in
    [already] or in [failed_once]; and a transmission leaves the address
    in [already] when it went through and in [failed_once] when it did
    not. *)
Theorem one_attempt_per_recipient (cfg : Config) (E : Env) (fuel : nat) (w : World) :
  (∃ evs, trace (run (main cfg E fuel) w).1 = trace w ++ evs
          ∧ NoDup (attempts evs))
  ∧ (∀ (emails : list string) (s : LoopState),
      ∃ evs, trace (run (main_loop cfg E fuel emails s) w).1 = trace w ++ evs
             ∧ NoDup (attempts evs)
             ∧ (∀ a, a ∈ attempts evs → (a ∉ already s) ∧ (a ∉ failed_once s))
             ∧ ∀ s', (run (main_loop cfg E fuel emails s) w).2 = Ret s' →
                     already s ⊆ already s' ∧ failed_once s ⊆ failed_once s'
                     ∧ ∀ a, a ∈ attempts evs → a ∈ already s' ∪ failed_once s')
  ∧ ∀ (s : LoopState) (addr : string),
      ((run (attempt_send cfg E s addr) w).2 = Ret (on_success s addr)
       ∧ lower addr ∈ already (on_success s addr))
      ∨ ((run (attempt_send cfg E s addr) w).2 = Ret (on_failure s addr)
         ∧ lower addr ∈ failed_once (on_failure s addr)).
Proof.
  split; [apply main_tries|]. split.
  - intros emails s.
    destruct (main_loop_tries cfg E fuel emails s w)
      as (evs & Ht & [Hn Hf] & Habs).
    exists evs. eauto.
  - intros s addr.
    destruct (attempt_send_outcome cfg E s addr w) as [H|H]; [left | right];
      (split; [done|]); cbn; by apply elem_of_union_l, elem_of_singleton.
Qed.

(** ** What a transmission does to the run *)

Section SendStep.
Variable cfg : Config.
Variable E : Env.

Lemma attempt_send_delivered s addr w :
  SMTP_PASS cfg = true → delivered E (step w) = true →
  run (attempt_send cfg E s addr) w
  = (mkWorld (S (S (step w)))
       (sent_log w ++ [sent_line (clock E (S (step w))) addr]) (bcc_on w)
       (trace w ++ [Smtp (build_message cfg addr (bcc_on w)) true;
                    Printed (MsgSent addr (bcc_on w))]),
     Ret (on_success s addr)).
Proof.
  intros Hp Hd. unfold attempt_send, try_except, smtp_send_one.
  rewrite Hp. cbn. rewrite Hd. cbn. by rewrite <- app_assoc.
Qed.

Lemma attempt_send_refused s addr w :
  SMTP_PASS cfg = true → delivered E (step w) = false →
  run (attempt_send cfg E s addr) w
  = (mkWorld (S (step w)) (sent_log w) (bcc_on w)
       (trace w ++ [Smtp (build_message cfg addr (bcc_on w)) false;
                    Printed (MsgErr addr)]),
     Ret (on_failure s addr)).
Proof.
  intros Hp Hd. unfold attempt_send, try_except, smtp_send_one.
  rewrite Hp. cbn. rewrite Hd. cbn. by rewrite <- app_assoc.
Qed.

(** After a refused transmission the body goes on to sample a delay and
    wait, as after a success. *)
Lemma send_step_refused fuel s addr w :
  SMTP_PASS cfg = true → delivered E (step w) = false →
  today_total s < MAX_PER_DAY_TOTAL cfg →
  run (send_step cfg E fuel s addr) w
  = run (plan_and_wait cfg E fuel (on_failure s addr))
      (mkWorld (S (step w)) (sent_log w) (bcc_on w)
         (trace w ++ [Smtp (build_message cfg addr (bcc_on w)) false;
                      Printed (MsgErr addr)])).
Proof.
  intros Hp Hd Hcap. unfold send_step. rewrite run_bind.
  rewrite attempt_send_refused by done.
  cbn [on_failure today_total].
  destruct (Z.leb_spec (MAX_PER_DAY_TOTAL cfg) (today_total s)); [lia | done].
Qed.

Lemma send_step_reaches_cap fuel s addr w :
  SMTP_PASS cfg = true → delivered E (step w) = true →
  MAX_PER_DAY_TOTAL cfg ≤ today_total s + 1 →
  run (send_step cfg E fuel s addr) w
  = (mkWorld (S (S (step w)))
       (sent_log w ++ [sent_line (clock E (S (step w))) addr]) (bcc_on w)
       (trace w ++ [Smtp (build_message cfg addr (bcc_on w)) true;
                    Printed (MsgSent addr (bcc_on w));
                    Printed (MsgDailyLimitStop (today_total s + 1)
                               (MAX_PER_DAY_TOTAL cfg))]),
     Ret (Break (on_success s addr))).
Proof.
  intros Hp Hd Hcap. unfold send_step. rewrite run_bind.
  rewrite attempt_send_delivered by done.
  cbn [on_success today_total].
  destruct (Z.leb_spec (MAX_PER_DAY_TOTAL cfg) (today_total s + 1)); [|lia].
  cbn. by rewrite <- app_assoc.
Qed.

Lemma main_loop_break fuel emails s w w' s' :
  sent_count s < PER_RUN_LIMIT cfg → today_total s < MAX_PER_DAY_TOTAL cfg →
  run (loop_body cfg E fuel emails s) w = (w', Ret (Break s')) →
  run (main_loop cfg E (S fuel) emails s) w = (w', Ret s').
Proof.
  intros Hl Hc Hb. cbn [main_loop].
  destruct (Z.ltb_spec (sent_count s) (PER_RUN_LIMIT cfg)); [|lia].
  destruct (Z.ltb_spec (today_total s) (MAX_PER_DAY_TOTAL cfg)); [|lia].
  cbn [andb]. rewrite run_bind, Hb. done.
Qed.

Lemma tally_domains_runs rows used w :
  ∃ used', run (tally_domains E rows used) w
           = (mkWorld (step w + length rows) (sent_log w) (bcc_on w) (trace w),
              Ret used').
Proof.
  revert used w. induction rows as [|[em ts] rows IH]; intros used w.
  - exists used. cbn. rewrite Nat.add_0_r. by destruct w.
  - cbn [tally_domains]. rewrite run_bind. cbn.
    match goal with |- context [if ?b then _ else _] => destruct b end;
      match goal with |- context [run (tally_domains E rows ?u) ?w'] =>
        destruct (IH u w') as [used' ->] end;
      exists used'; cbn; do 2 f_equal; lia.
Qed.

End SendStep.

(** C1 fails on the code. With a server that refuses the message, the
    pass through the body records the failure (the address joins
    [failed_once], its domain becomes [last_domain]) and then, instead
    of going on to the next iteration, plans the next send and sleeps:
    the console shows the plan right after the error. *)
Theorem refused_send_is_followed_by_wait :
  let s0 := mkLoop [] ∅ ∅ 0 0 0 None ∅ in
  let r := run (loop_body default_config refusing_env 40 ["a@x.com"; "c@y.com"] s0)
               (fresh_world []) in
  (∃ rest,
     trace r.1
     = Smtp (mkEmail "a@x.com" None) false
       :: Printed (MsgErr "a@x.com")
       :: Printed (MsgPlan (mkdatetime (mkdate 2024 1 2) 10 32 5 0 None))
       :: Slept 15000000 :: rest)
  ∧ r.2 = Ret (Continue (on_failure s0 "a@x.com"))
  ∧ failed_once (on_failure s0 "a@x.com") = {["a@x.com"]}
  ∧ last_domain (on_failure s0 "a@x.com") = Some "x.com".
Proof.
  cbv zeta. split; [eexists|]; vm_compute; repeat split.
Qed.

(** ** The hourly gate *)

Section HourlyGate.
Variable cfg : Config.
Variable E : Env.

(** [wait_until] returns [True] only on a clock reading at or after the
    target, and that reading is its last interaction. *)
Lemma wait_until_true fuel target w w1 :
  run (wait_until cfg E fuel target) w = (w1, Ret true) →
  ∃ n, step w1 = S n ∧ (step w ≤ n)%nat
       ∧ ge (datetime_now (clock E n)) target = true.
Proof.
  revert w. induction fuel as [|fuel IH]; intros w; cbn [wait_until]; [done|].
  rewrite run_bind. cbn [read_clock run mbind M_bind tick mret M_ret].
  destruct (ge _ target) eqn:Hge.
  - intros [= <-]. exists (step w). done.
  - rewrite run_bind.
    pose proof (quiet_hotkey_loop cfg E fuel true
                  (mkWorld (S (step w)) (sent_log w) (bcc_on w) (trace w)))
      as [Hs _].
    destruct (run (_hotkey_loop _ _ _ _) _) as [w2 [[|]|h]]; cbn [negb];
      [|done..].
    rewrite run_bind. cbn [sleep emit run].
    intros H. apply IH in H as (n & Hn & Hle & Hn'). cbn in Hs, Hle.
    exists n. split; [done|]. split; [lia | done].
Qed.

(** Without a keyboard to poll, [wait_until] returns [True] as soon as
    the clock shows the target, if that happens within the fuel. *)
Lemma wait_until_reaches fuel target w k :
  HAS_MSVCRT cfg = false → (k < fuel)%nat →
  ge (datetime_now (clock E (step w + k))) target = true →
  ∃ w1, run (wait_until cfg E fuel target) w = (w1, Ret true).
Proof.
  intros Hk. revert w k.
  induction fuel as [|fuel IH]; intros w k Hlt Hge; [lia|].
  cbn [wait_until]. rewrite run_bind.
  cbn [read_clock run mbind M_bind tick mret M_ret].
  destruct (ge (datetime_now (clock E (step w))) target) eqn:Hnow; [eauto|].
  destruct k as [|k]; [rewrite Nat.add_0_r in Hge; congruence|].
  rewrite run_bind. unfold _hotkey_loop. rewrite Hk. cbn [negb run mret M_ret].
  rewrite run_bind. cbn [sleep emit run].
  apply (IH _ k); [lia|]. cbn [step].
  by replace (S (step w) + k)%nat with (step w + S k)%nat by lia.
Qed.

(** A pass that finds the hourly cap reached and continues. *)
Lemma hourly_gate_continue fuel s w w' s' :
  run (hourly_gate cfg E fuel s) w = (w', Ret (Continue s')) →
  let next_hour := top_of_hour (add_hours (datetime_now (clock E (step w))) 1) in
  (∃ n, (step w < n < step w')%nat
        ∧ ge (datetime_now (clock E n)) next_hour = true)
  ∧ (∃ n, step w' = S n
          ∧ s' = mkLoop (parse_lines (sent_log w')) (already s)
                   (used_domains_today s) (today_total s)
                   (count_this_hour (clock E n) (parse_lines (sent_log w')))
                   (sent_count s) (last_domain s) (failed_once s)).
Proof.
  unfold hourly_gate. rewrite run_bind.
  cbn [read_clock run mbind M_bind tick mret M_ret].
  rewrite run_bind. cbn [print emit run]. rewrite run_bind.
  destruct (run (wait_until _ _ _ _) _) as [w1 [[|]|h]] eqn:Hwait;
    cbn [negb]; [|done..].
  apply wait_until_true in Hwait as (n & Hn & Hle & Hge). cbn [step] in Hle.
  rewrite run_bind. cbn [has_connectivity run mbind M_bind tick mret M_ret].
  rewrite run_bind.
  set (w2 := mkWorld (S (step w1)) (sent_log w1) (bcc_on w1) (trace w1)).
  assert (∀ w3 (ok : bool),
            (step w2 ≤ step w3)%nat →
            run (if negb ok then mret (Break s)
                 else rows ← parse_sent_log E;
                      clk ← read_clock E;
                      mret (Continue
                              (mkLoop rows (already s) (used_domains_today s)
                                 (today_total s) (count_this_hour clk rows)
                                 (sent_count s) (last_domain s) (failed_once s))))
              w3 = (w', Ret (Continue s')) →
            (∃ n, (step w < n < step w')%nat
                  ∧ ge (datetime_now (clock E n))
                      (top_of_hour (add_hours (datetime_now (clock E (step w))) 1))
                    = true)
            ∧ (∃ n, step w' = S n
                    ∧ s' = mkLoop (parse_lines (sent_log w')) (already s)
                             (used_domains_today s) (today_total s)
                             (count_this_hour (clock E n) (parse_lines (sent_log w')))
                             (sent_count s) (last_domain s) (failed_once s)))
    as Hrest.
  { intros w3 [|] Hs; cbn [negb]; [|done].
    cbn. intros [= <- <-]. subst w2. cbn in Hs. split.
    - exists n. cbn [step]. split; [lia | done].
    - eexists. cbn [step sent_log]. split; reflexivity. }
  destruct (reachable E (step w1)).
  - apply (Hrest w2 true). done.
  - pose proof (quiet_wait_for_connectivity cfg E fuel w2) as [Hs _].
    destruct (run (wait_for_connectivity _ _ _) w2) as [w3 [ok|h]]; [|done].
    apply (Hrest w3 ok). done.
Qed.

(** With the network up and no keyboard to poll, the gate does
    continue once the clock shows the next hour. *)
Lemma hourly_gate_progress fuel s w k :
  HAS_MSVCRT cfg = false → (∀ n, reachable E n = true) → (k < fuel)%nat →
  ge (datetime_now (clock E (S (step w) + k)))
     (top_of_hour (add_hours (datetime_now (clock E (step w))) 1)) = true →
  ∃ w' s', run (hourly_gate cfg E fuel s) w = (w', Ret (Continue s')).
Proof.
  intros Hk Hnet Hlt Hge. unfold hourly_gate. rewrite run_bind.
  cbn [read_clock run mbind M_bind tick mret M_ret].
  rewrite run_bind. cbn [print emit run]. rewrite run_bind.
  cbn [step sent_log bcc_on trace].
  edestruct (wait_until_reaches fuel
               (top_of_hour (add_hours (datetime_now (clock E (step w))) 1))
               (mkWorld (S (step w)) (sent_log w) (bcc_on w)
                  (trace w ++ [Printed (MsgHourlyCap (hour_total s)
                     (MAX_PER_HOUR_TOTAL cfg)
                     (top_of_hour (add_hours (datetime_now (clock E (step w))) 1)))]))
               k) as [w1 ->]; [done..|].
  cbn [negb]. rewrite run_bind.
  cbn [has_connectivity run mbind M_bind tick mret M_ret].
  rewrite Hnet. rewrite run_bind. cbn. eauto.
Qed.

End HourlyGate.

(** C3 (as amended). A pass through the body that finds
    [hour_total >= MAX_PER_HOUR_TOTAL] makes no selection and no attempt.
    If it continues, the clock has shown the top of the next hour,
    [sent_rows] is the log as read again and [hour_total] is derived from
    it, while [today_total], the per-domain counts of today and the
    exclusion sets keep the values held in memory. With the network up
    and no keyboard to poll it does continue once the clock shows the
    next hour. *)
Theorem hourly_cap_rederives_hour_total
    (cfg : Config) (E : Env) (fuel : nat) (emails : list string)
    (s : LoopState) (w : World) :
  MAX_PER_HOUR_TOTAL cfg ≤ hour_total s →
  let next_hour := top_of_hour (add_hours (datetime_now (clock E (step w))) 1) in
  (∀ w' s',
     run (loop_body cfg E fuel emails s) w = (w', Ret (Continue s')) →
     (∃ n, (step w < n < step w')%nat
           ∧ ge (datetime_now (clock E n)) next_hour = true)
     ∧ (∃ n, step w' = S n
             ∧ sent_rows s' = parse_lines (sent_log w')
             ∧ hour_total s' = count_this_hour (clock E n) (sent_rows s'))
     ∧ today_total s' = today_total s
     ∧ used_domains_today s' = used_domains_today s
     ∧ already s' = already s ∧ failed_once s' = failed_once s
     ∧ last_domain s' = last_domain s ∧ sent_count s' = sent_count s)
  ∧ (∃ evs, trace (run (loop_body cfg E fuel emails s) w).1 = trace w ++ evs
            ∧ attempts evs = [])
  ∧ (HAS_MSVCRT cfg = false → (∀ n, reachable E n = true) →
     ∀ k, (k < fuel)%nat →
          ge (datetime_now (clock E (S (step w) + k))) next_hour = true →
          ∃ w' s', run (loop_body cfg E fuel emails s) w = (w', Ret (Continue s'))).
Proof.
  intros Hcap next_hour.
  assert (loop_body cfg E fuel emails s = hourly_gate cfg E fuel s) as ->.
  { unfold loop_body.
    destruct (Z.leb_spec (MAX_PER_HOUR_TOTAL cfg) (hour_total s)); [done | lia]. }
  split; [|split].
  - intros w' s' Hrun.
    apply hourly_gate_continue in Hrun as [Hclock (n & Hn & ->)].
    split; [done|]. split; [|done]. by exists n.
  - apply quiet_hourly_gate.
  - intros Hk Hnet k Hlt Hge. by eapply hourly_gate_progress.
Qed.

Lemma hourly_cap_rederives_hour_total_witness :
  ∃ evs,
    trace (run (loop_body (with_caps 78 1 default_config) shared_log_env 5
                  ["a@x.com"; "c@y.com"] state_at_cap)
             (fresh_world ["a@x.com;2024-01-02T10:10:00+00:00"])).1
    = trace (fresh_world ["a@x.com;2024-01-02T10:10:00+00:00"]) ++ evs
    ∧ attempts evs = [].
Proof.
  refine (proj1 (proj2 (hourly_cap_rederives_hour_total
                          (with_caps 78 1 default_config) shared_log_env 5
                          ["a@x.com"; "c@y.com"] state_at_cap
                          (fresh_world ["a@x.com;2024-01-02T10:10:00+00:00"]) _))).
  cbn. lia.
Defined.

(** C3 fails as stated: a record added to the log by another writer
    during the wait is read back, but [today_total] and the per-domain
    counts are not derived again. *)
Lemma hourly_cap_leaves_today_total_stale :
  let r := run (loop_body (with_caps 78 1 default_config) shared_log_env 5
                  ["a@x.com"; "c@y.com"] state_at_cap)
             (fresh_world ["a@x.com;2024-01-02T10:10:00+00:00"]) in
  ∃ s', r.2 = Ret (Continue s')
        ∧ sent_rows s' = [("a@x.com", "2024-01-02T10:10:00+00:00");
                          ("z@w.com", "2024-01-02T10:59:30+00:00")]
        ∧ today_total s' = 1
        ∧ count_today (clock shared_log_env 4) (sent_rows s') = 2
        ∧ get0 (used_domains_today s') "w.com" = 0
        ∧ count_today_domain (clock shared_log_env 4) (sent_rows s') "w.com" = 1.
Proof. cbv zeta. eexists. vm_compute. repeat split. Qed.

(** ** The daily cap *)

(** C9. When the total of today derived at startup has reached
    [MAX_PER_DAY_TOTAL], [main] prints the limit and returns: nothing is
    sent. And when, in a pass of the loop, the transmission goes through
    and brings [today_total] to the cap, the loop returns right after the
    stop line: no plan, no wait and no further selection follow. *)
Theorem daily_cap_ends_run (cfg : Config) (E : Env) (fuel : nat) (w : World) :
  (∀ lines,
     test_mode (argv E) = false → emails_txt E = Some lines →
     let rows := parse_lines (sent_log w ++ appended_by_others E (step w)) in
     let total := count_today (clock E (S (step w))) rows in
     MAX_PER_DAY_TOTAL cfg ≤ total →
     ∃ w', run (main cfg E fuel) w = (w', Ret tt)
           ∧ trace w' = trace w ++ [Printed (MsgDailyLimit total (MAX_PER_DAY_TOTAL cfg))])
  ∧ (∀ emails s addr w1 w2,
       sent_count s < PER_RUN_LIMIT cfg → today_total s < MAX_PER_DAY_TOTAL cfg →
       hour_total s < MAX_PER_HOUR_TOTAL cfg →
       first_unsent_rotating cfg emails (already s) (used_domains_today s)
         (last_domain s) (failed_once s) = Some addr →
       nonempty addr = true →
       run (_hotkey_loop cfg E fuel false) w = (w1, Ret true) →
       run (await_connectivity cfg E fuel) w1 = (w2, Ret true) →
       SMTP_PASS cfg = true → delivered E (step w2) = true →
       MAX_PER_DAY_TOTAL cfg ≤ today_total s + 1 →
       ∃ w', run (main_loop cfg E (S fuel) emails s) w
             = (w', Ret (on_success s addr))
             ∧ trace w' = trace w2
                 ++ [Smtp (build_message cfg addr (bcc_on w2)) true;
                     Printed (MsgSent addr (bcc_on w2));
                     Printed (MsgDailyLimitStop (today_total s + 1)
                                (MAX_PER_DAY_TOTAL cfg))]).
Proof.
  split.
  - intros lines Htest Hfile rows total Hcap.
    unfold main. rewrite Htest.
    rewrite run_bind. cbn [parse_sent_log run mbind M_bind tick mret M_ret
      get_sent_log set_sent_log step sent_log bcc_on trace].
    rewrite run_bind. unfold load_emails. rewrite Hfile. cbn [run mret M_ret].
    rewrite run_bind.
    cbn [read_clock run mbind M_bind tick mret M_ret step sent_log bcc_on trace].
    rewrite run_bind.
    cbn [read_clock run mbind M_bind tick mret M_ret step sent_log bcc_on trace].
    match goal with |- context [run (tally_domains E ?r ?u) ?w0] =>
      destruct (tally_domains_runs E r u w0) as [used' ->] end.
    fold rows. fold total.
    destruct (Z.leb_spec (MAX_PER_DAY_TOTAL cfg) total); [|lia].
    cbn. eauto.
  - intros emails s addr w1 w2 Hlimit Hday Hhour Hsel Haddr Hkeys Hnet Hp Hd Hcap.
    eexists. split.
    + apply main_loop_break; [done..|].
      unfold loop_body.
      destruct (Z.leb_spec (MAX_PER_HOUR_TOTAL cfg) (hour_total s)); [lia|].
      rewrite Hsel, Haddr. cbn [negb].
      rewrite run_bind, Hkeys. cbn [negb].
      rewrite run_bind, Hnet. cbn [negb].
      by apply send_step_reaches_cap.
    + done.
Qed.

Lemma daily_cap_ends_run_witness :
  (∃ w', run (main (with_caps 2 12 default_config) refusing_env 10)
           (fresh_world ["a@x.com;2024-01-02T08:10:00+00:00";
                         "c@y.com;2024-01-02T09:10:00+00:00"])
         = (w', Ret tt)
         ∧ trace w' = [Printed (MsgDailyLimit 2 2)])
  ∧ (∃ w', run (main_loop (with_caps 2 12 default_config) shared_log_env 6
                  ["a@x.com"; "c@y.com"] state_at_cap)
             (fresh_world ["a@x.com;2024-01-02T10:10:00+00:00"])
           = (w', Ret (on_success state_at_cap "c@y.com"))
           ∧ trace w' = [Smtp (mkEmail "c@y.com" None) true;
                         Printed (MsgSent "c@y.com" true);
                         Printed (MsgDailyLimitStop 2 2)]).
Proof.
  split.
  - refine (proj1 (daily_cap_ends_run (with_caps 2 12 default_config)
                     refusing_env 10
                     (fresh_world ["a@x.com;2024-01-02T08:10:00+00:00";
                                   "c@y.com;2024-01-02T09:10:00+00:00"]))
              ["a@x.com"; "c@y.com"] _ _ _).
    + reflexivity.
    + reflexivity.
    + vm_compute. discriminate.
  - refine (proj2 (daily_cap_ends_run (with_caps 2 12 default_config)
                     shared_log_env 5
                     (fresh_world ["a@x.com;2024-01-02T10:10:00+00:00"]))
              ["a@x.com"; "c@y.com"] state_at_cap "c@y.com"
              (fresh_world ["a@x.com;2024-01-02T10:10:00+00:00"])
              (mkWorld 1 ["a@x.com;2024-01-02T10:10:00+00:00"] true [])
              _ _ _ _ _ _ _ _ _ _).
    + reflexivity.
    + reflexivity.
    + reflexivity.
    + vm_compute. reflexivity.
    + reflexivity.
    + reflexivity.
    + reflexivity.
    + reflexivity.
    + reflexivity.
    + vm_compute. discriminate.
Defined.

(** * Further properties of the code *)

(** ** Error classification *)

(** X1. A response error that is no connect error is soft exactly when
    its code is in 400..599 and is not 535; the codes 421, 450, 451 and
    452 listed in the source add nothing. A connect error is soft also for
    every code outside 400..599. Disconnections and timeouts are soft,
    anything else is not. *)
Theorem is_soft_error_codes (connect : bool) (code : Z) :
  (is_soft_error (ResponseError connect code) = true
   ↔ (400 ≤ code < 600 ∧ code ≠ 535)
     ∨ (connect = true ∧ (code < 400 ∨ 600 ≤ code)))
  ∧ is_soft_error ServerDisconnected = true
  ∧ is_soft_error Timeout = true
  ∧ is_soft_error OtherException = false.
Proof.
  split; [|done]. unfold is_soft_error.
  assert (code ∈ [421; 450; 451; 452] → 400 ≤ code < 500) as Hlist.
  { rewrite !elem_of_cons, elem_of_nil. lia. }
  destruct (Z.leb_spec 400 code), (Z.ltb_spec code 500),
    (Z.eqb_spec code 535), (Z.leb_spec 500 code), (Z.ltb_spec code 600);
    cbn [andb]; try case_bool_decide;
    try match goal with Hin : _ ∈ _ |- _ => apply Hlist in Hin end; try lia;
    destruct connect; split; intros; try done; try lia;
    try (left; lia); try (right; split; [done | lia]);
    destruct_or?; destruct_and?; try lia; try done.
Qed.

(** ** Quiet window *)

(** X2. A quiet window that does not span midnight
    ([QUIET_START_HOUR <= QUIET_END_HOUR]) makes every instant quiet. *)
Theorem in_quiet_hours_always (cfg : Config) (dt_local : datetime) :
  QUIET_START_HOUR cfg ≤ QUIET_END_HOUR cfg →
  in_quiet_hours cfg dt_local = true.
Proof.
  intros H. unfold in_quiet_hours.
  destruct (Z.leb_spec (QUIET_START_HOUR cfg) (hour dt_local)); [done|].
  apply Z.ltb_lt. lia.
Qed.

Lemma in_quiet_hours_always_witness :
  in_quiet_hours (with_quiet_hours 8 17 default_config)
    (mkdatetime (mkdate 2024 1 2) 19 30 0 0 None) = true.
Proof.
  apply (in_quiet_hours_always (with_quiet_hours 8 17 default_config)).
  cbn. lia.
Defined.

(** ** Values a computation can return *)

Lemma returns_weaken {A} (m : M A) (P Q : A → Prop) :
  returns m P → (∀ a, P a → Q a) → returns m Q.
Proof.
  intros Hm HPQ w. specialize (Hm w).
  destruct (run m w).2; [by apply HPQ | done].
Qed.

Lemma returns_bind_with {A B} (m : M A) (k : A → M B) (Q : A → Prop)
    (P : B → Prop) :
  returns m Q → (∀ a, Q a → returns (k a) P) → returns (m ≫= k) P.
Proof.
  intros Hm Hk w. rewrite run_bind. specialize (Hm w).
  destruct (run m w) as [w1 [a|h]]; [by apply Hk | exact I].
Qed.

Lemma returns_try_except {A} (m : M A) (h : exn → M A) (P : A → Prop) :
  returns m P → (∀ e, returns (h e) P) → returns (try_except m h) P.
Proof.
  intros Hm Hh w. unfold try_except. cbn [run]. specialize (Hm w).
  destruct (run m w) as [w1 [a|[e| |]]]; try done. apply Hh.
Qed.

Lemma returns_halt {A} (h : halt) (P : A → Prop) :
  returns (mkM (λ w, (w, @Halt A h))) P.
Proof. intros w. exact I. Qed.

Lemma returns_run {A} (m : M A) (P : A → Prop) (w : World) (a : A) :
  returns m P → (run m w).2 = Ret a → P a.
Proof. intros Hm Hr. specialize (Hm w). by rewrite Hr in Hm. Qed.

(** Break a goal [returns m P] down along the binds and tests of [m]. *)
Ltac returns_steps :=
  repeat match goal with
  | |- returns (_ ≫= _) _ => apply returns_bind; intros
  | |- returns (if ?b then _ else _) _ => destruct b
  | |- returns (mret _) _ => apply returns_ret
  end.

(** ** Waiting *)

Section Waits.
Variable cfg : Config.
Variable E : Env.

Lemma wait_for_connectivity_returns fuel :
  returns (wait_for_connectivity cfg E fuel) (λ b, b = true).
Proof.
  induction fuel as [|fuel IH]; cbn [wait_for_connectivity];
    [apply returns_halt|].
  apply returns_bind. intros [|]; [by apply returns_ret|].
  do 2 (apply returns_bind; intros). apply IH.
Qed.

Lemma await_connectivity_returns fuel :
  returns (await_connectivity cfg E fuel) (λ b, b = true).
Proof.
  unfold await_connectivity. apply returns_bind. intros [|];
    [by apply returns_ret|].
  apply returns_bind. intros _. apply wait_for_connectivity_returns.
Qed.

Lemma hotkey_loop_without_keyboard fuel during_wait w :
  HAS_MSVCRT cfg = false →
  run (_hotkey_loop cfg E fuel during_wait) w = (w, Ret true).
Proof. intros H. unfold _hotkey_loop. by rewrite H. Qed.

Lemma wait_until_without_keyboard fuel target :
  HAS_MSVCRT cfg = false →
  returns (wait_until cfg E fuel target) (λ b, b = true).
Proof.
  intros Hk. induction fuel as [|fuel IH]; cbn [wait_until];
    [apply returns_halt|].
  apply returns_bind. intros clk. destruct (ge _ _); [by apply returns_ret|].
  apply (returns_bind_with _ _ (λ b, b = true)).
  - intros w. by rewrite hotkey_loop_without_keyboard.
  - intros ok ->. cbn [negb]. apply returns_bind. intros _. apply IH.
Qed.

(** The keyboard loop answers [False] only right after it printed the
    abort line. *)
Lemma drain_keys_false fuel w w' :
  run (drain_keys cfg E fuel) w = (w', Ret false) →
  ∃ evs, trace w' = trace w ++ evs ++ [Printed MsgAbort].
Proof.
  revert w. induction fuel as [|fuel IH]; intros w; cbn [drain_keys]; [done|].
  rewrite run_bind. cbn [kbhit_getwch run mbind M_bind tick mret M_ret].
  destruct (keypress E (step w)) as [ch|]; [|done].
  destruct (Ascii.eqb (lower_ascii ch) "q").
  { cbn. intros [= <-]. exists []. done. }
  rewrite run_bind.
  set (w0 := mkWorld (S (step w)) (sent_log w) (bcc_on w) (trace w)).
  match goal with |- context [run ?m w0] =>
    assert (quiet m) as Hq by (quiet_auto; eauto with quiet) end.
  destruct (Hq w0) as [_ (e1 & Ht1 & _)].
  match goal with |- context [run ?m w0] =>
    destruct (run m w0) as [w1 [[]|h]] end; [|done].
  rewrite run_bind.
  match goal with |- context [run ?m w1] =>
    assert (quiet m) as Hq' by quiet_auto end.
  destruct (Hq' w1) as [_ (e2 & Ht2 & _)].
  match goal with |- context [run ?m w1] =>
    destruct (run m w1) as [w2 [[]|h]] end; [|done].
  intros H. apply IH in H as (evs & Ht).
  exists (e1 ++ e2 ++ evs). cbn in Ht1, Ht2.
  rewrite Ht, Ht2, Ht1. cbn. by rewrite <- !app_assoc.
Qed.

Lemma hotkey_loop_false fuel during_wait w w' :
  run (_hotkey_loop cfg E fuel during_wait) w = (w', Ret false) →
  ∃ evs, trace w' = trace w ++ evs ++ [Printed MsgAbort].
Proof.
  unfold _hotkey_loop. destruct (HAS_MSVCRT cfg); cbn [negb]; [|done].
  rewrite run_bind. destruct during_wait; cbn [print emit run mret M_ret].
  - intros H. apply drain_keys_false in H as (evs & Ht). cbn in Ht.
    exists (Printed MsgPrompt :: evs). rewrite Ht. by rewrite <- app_assoc.
  - intros H. apply drain_keys_false in H as (evs & Ht).
    exists evs. rewrite Ht. by destruct w.
Qed.

Lemma wait_until_false fuel target w w' :
  run (wait_until cfg E fuel target) w = (w', Ret false) →
  ∃ evs, trace w' = trace w ++ evs ++ [Printed MsgAbort].
Proof.
  revert w. induction fuel as [|fuel IH]; intros w; cbn [wait_until]; [done|].
  rewrite run_bind. cbn [read_clock run mbind M_bind tick mret M_ret].
  destruct (ge _ target); [done|].
  rewrite run_bind.
  destruct (run (_hotkey_loop _ _ _ _) _) as [w1 [[|]|h]] eqn:Hkeys;
    cbn [negb]; [| |done].
  - pose proof (quiet_hotkey_loop cfg E fuel true
                  (mkWorld (S (step w)) (sent_log w) (bcc_on w) (trace w)))
      as [_ (e1 & Ht1 & _)].
    rewrite Hkeys in Ht1. cbn in Ht1.
    rewrite run_bind. cbn [sleep emit run].
    intros H. apply IH in H as (evs & Ht). cbn in Ht.
    eexists (e1 ++ _ :: evs). rewrite Ht, Ht1. by rewrite <- !app_assoc.
  - intros [= <-]. by apply hotkey_loop_false in Hkeys.
Qed.

End Waits.

(** X3. [wait_for_connectivity] never answers [False], whatever is
    typed: a [q] pressed while offline prints the abort line and the
    wait goes on. So the [break] and [return] that follow a failed
    connectivity wait in [main] are never taken. *)
Theorem wait_for_connectivity_never_false
    (cfg : Config) (E : Env) (fuel : nat) (w : World) :
  (run (wait_for_connectivity cfg E fuel) w).2 ≠ Ret false
  ∧ (run (await_connectivity cfg E fuel) w).2 ≠ Ret false.
Proof.
  split; intros H.
  - by apply (returns_run _ _ _ _ (wait_for_connectivity_returns cfg E fuel)) in H.
  - by apply (returns_run _ _ _ _ (await_connectivity_returns cfg E fuel)) in H.
Qed.

(** X4. Where there is no [msvcrt] (any system but Windows),
    [_hotkey_loop] reads nothing, prints nothing and answers [True], and
    [wait_until] never answers [False]: such a run cannot be aborted from
    the keyboard. *)
Theorem no_keyboard_no_abort
    (cfg : Config) (E : Env) (fuel : nat) (during_wait : bool)
    (target : datetime) (w : World) :
  HAS_MSVCRT cfg = false →
  run (_hotkey_loop cfg E fuel during_wait) w = (w, Ret true)
  ∧ (run (wait_until cfg E fuel target) w).2 ≠ Ret false.
Proof.
  intros Hk. split; [by apply hotkey_loop_without_keyboard|].
  intros H.
  by apply (returns_run _ _ _ _ (wait_until_without_keyboard cfg E fuel target Hk))
    in H.
Qed.

Lemma no_keyboard_no_abort_witness :
  run (_hotkey_loop default_config refusing_env 3 true) (fresh_world [])
  = (fresh_world [], Ret true).
Proof.
  refine (proj1 (no_keyboard_no_abort default_config refusing_env 3 true
                   (mkdatetime (mkdate 2024 1 2) 10 5 0 0 None)
                   (fresh_world []) _)).
  reflexivity.
Defined.

(** X5. [wait_until] and [_hotkey_loop] answer [False] only when the
    last thing the process did was to print the abort line, that is,
    when [q] was read from the keyboard. *)
Theorem abort_only_on_q
    (cfg : Config) (E : Env) (fuel : nat) (during_wait : bool)
    (target : datetime) (w w' : World) :
  (run (wait_until cfg E fuel target) w = (w', Ret false) →
   ∃ evs, trace w' = trace w ++ evs ++ [Printed MsgAbort])
  ∧ (run (_hotkey_loop cfg E fuel during_wait) w = (w', Ret false) →
     ∃ evs, trace w' = trace w ++ evs ++ [Printed MsgAbort]).
Proof. split; [apply wait_until_false | apply hotkey_loop_false]. Qed.

(** ** Transmission without a password *)

(** X6. With [SMTP_PASS] unset no server is contacted: the
    [RuntimeError] of [smtp_send_one] is caught like any failed send, so
    an attempt of the loop prints the error line and puts the address in
    [failed_once], and a test send prints its error line; neither ends the
    process. *)
Theorem missing_password_is_a_failed_send
    (cfg : Config) (E : Env) (s : LoopState) (addr : string) (w : World) :
  SMTP_PASS cfg = false →
  run (attempt_send cfg E s addr) w
  = (mkWorld (step w) (sent_log w) (bcc_on w) (trace w ++ [Printed (MsgErr addr)]),
     Ret (on_failure s addr))
  ∧ run (main_test cfg E) w
    = (mkWorld (step w) (sent_log w) (bcc_on w) (trace w ++ [Printed MsgTestErr]),
       Ret tt).
Proof.
  intros Hp. unfold attempt_send, main_test, try_except, smtp_send_one.
  rewrite Hp. by cbn.
Qed.

Lemma missing_password_is_a_failed_send_witness :
  let cfg := {| QUIET_START_HOUR := 20; QUIET_END_HOUR := 7;
                MAX_PER_DAY_TOTAL := 78; MAX_PER_HOUR_TOTAL := 12;
                MAX_PER_DAY_PER_DOMAIN := 5; PER_RUN_LIMIT := 999999;
                SMTP_PASS := false; BCC_DEFAULT := "";
                TEST_ADDRESS := "me@example.com"; HAS_MSVCRT := false |} in
  run (attempt_send cfg refusing_env state_at_cap "c@y.com") (fresh_world [])
  = (mkWorld 0 [] true [Printed (MsgErr "c@y.com")],
     Ret (on_failure state_at_cap "c@y.com")).
Proof.
  cbv zeta.
  refine (proj1 (missing_password_is_a_failed_send _ refusing_env state_at_cap
                   "c@y.com" (fresh_world []) _)).
  reflexivity.
Defined.

(** ** Selection at the start of a run *)

(** X7. With no last domain, as at the start of every run, the selector
    returns the case fold of the first eligible entry of the list. *)
Theorem first_pick_is_first_eligible
    (cfg : Config) (emails : list string) (already_sent failed_once : gset string)
    (used_domains_today : gmap string Z) :
  first_unsent_rotating cfg emails already_sent used_domains_today None failed_once
  = lower <$> first_such (eligible cfg already_sent failed_once used_domains_today)
                emails.
Proof. unfold first_unsent_rotating. by rewrite scan_emails_plain. Qed.

(** ** Counters and exclusion sets along the loop *)

Section LoopInvariants.
Variable cfg : Config.
Variable E : Env.

Lemma attempt_send_returns s addr :
  returns (attempt_send cfg E s addr)
    (λ s', s' = on_success s addr ∨ s' = on_failure s addr).
Proof.
  intros w. destruct (attempt_send_outcome cfg E s addr w) as [-> | ->]; eauto.
Qed.

(** What a pass through the body may do to the state: nothing that the
    relation [R] forbids, if [R] allows the re-read of the log, a
    success and a failure. *)
Lemma loop_body_returns fuel emails s (R : LoopState → Prop) :
  R s →
  (∀ rows h, R (mkLoop rows (already s) (used_domains_today s) (today_total s)
                  h (sent_count s) (last_domain s) (failed_once s))) →
  (∀ a, a ∈ emails → R (on_success s (lower a))) →
  (∀ a, a ∈ emails → R (on_failure s (lower a))) →
  returns (loop_body cfg E fuel emails s) (λ c, R (state_of c)).
Proof.
  intros Hs Hgate Hok Hko. unfold loop_body. destruct (_ <=? _).
  { unfold hourly_gate. returns_steps; cbn [state_of]; done. }
  destruct (first_unsent_rotating _ _ _ _ _ _) as [addr|] eqn:Hsel;
    [|returns_steps; done].
  apply scan_emails_sound in Hsel as [? | (a & Ha & _ & ->)]; [done|].
  destruct (negb _); [returns_steps; done|].
  apply returns_bind. intros ok. destruct (negb ok); [by apply returns_ret|].
  apply returns_bind. intros ok'. destruct (negb ok'); [by apply returns_ret|].
  unfold send_step.
  eapply returns_bind_with; [apply attempt_send_returns|].
  intros s1 Hs1.
  assert (R s1) as HR by (destruct Hs1 as [-> | ->]; eauto).
  destruct (_ <=? _); [returns_steps; done|].
  eapply returns_weaken; [apply plan_and_wait_same_state|].
  by intros c ->.
Qed.

Lemma main_loop_counters fuel emails s :
  returns (main_loop cfg E fuel emails s)
    (λ s', today_total s ≤ today_total s'
           ∧ today_total s' - today_total s = sent_count s' - sent_count s
           ∧ today_total s' ≤ Z.max (today_total s) (MAX_PER_DAY_TOTAL cfg)
           ∧ sent_count s' ≤ Z.max (sent_count s) (PER_RUN_LIMIT cfg)).
Proof.
  revert s. induction fuel as [|fuel IH]; intros s; cbn [main_loop];
    [apply returns_halt|].
  destruct (Z.ltb_spec (sent_count s) (PER_RUN_LIMIT cfg));
    [destruct (Z.ltb_spec (today_total s) (MAX_PER_DAY_TOTAL cfg))|];
    cbn [andb]; try (apply returns_ret; lia).
  eapply returns_bind_with.
  - apply (loop_body_returns fuel emails s (counted s)).
    + by left.
    + intros rows h. by left.
    + intros a _. by right.
    + intros a _. by left.
  - intros c Hc. destruct c as [s1|s1]; cbn [state_of] in Hc.
    + eapply returns_weaken; [apply IH|]. intros s'. cbv beta.
      destruct Hc as [[-> ->] | [-> ->]]; lia.
    + apply returns_ret. destruct Hc as [[-> ->] | [-> ->]]; lia.
Qed.

Lemma folded_insert (X : gset string) (a : string) :
  folded X → folded ({[lower a]} ∪ X).
Proof.
  intros HX b Hb. apply elem_of_union in Hb as [Hb|Hb]; [|by apply HX].
  apply elem_of_singleton in Hb as ->. apply lower_idem.
Qed.

Lemma main_loop_folded fuel emails s :
  folded_state s → returns (main_loop cfg E fuel emails s) folded_state.
Proof.
  revert s. induction fuel as [|fuel IH]; intros s Hs; cbn [main_loop];
    [apply returns_halt|].
  destruct (_ && _); [|by apply returns_ret].
  eapply returns_bind_with.
  - apply (loop_body_returns fuel emails s folded_state); [done|..].
    + intros rows h. exact Hs.
    + intros a _. destruct Hs as [Ha Hf]. split; [|done].
      by apply folded_insert.
    + intros a _. destruct Hs as [Ha Hf]. split; [done|].
      by apply folded_insert.
  - intros [s1|s1] Hc; cbn [state_of] in Hc; [by apply IH | by apply returns_ret].
Qed.

End LoopInvariants.

Lemma parse_lines_folded (lines : list string) (r : row) :
  r ∈ parse_lines lines → lower (fst r) = fst r.
Proof.
  induction lines as [|line more IH]; cbn [parse_lines].
  - intros H. by apply elem_of_nil in H.
  - destruct (nonempty _); [|done].
    destruct (split ";" (strip line)) as [|email rest]; [done|].
    intros H. apply elem_of_cons in H as [-> | H]; [|by apply IH].
    apply lower_idem.
Qed.

(** X8. Within a run the counters in memory stay inside the caps: when
    the loop returns, [today_total] and [sent_count] have grown by the
    same amount, and neither has passed its cap ([MAX_PER_DAY_TOTAL],
    [PER_RUN_LIMIT]) unless it was beyond it at the start. *)
Theorem loop_counters_stay_within_caps
    (cfg : Config) (E : Env) (fuel : nat) (emails : list string)
    (s s' : LoopState) (w : World) :
  (run (main_loop cfg E fuel emails s) w).2 = Ret s' →
  today_total s ≤ today_total s'
  ∧ today_total s' - today_total s = sent_count s' - sent_count s
  ∧ today_total s' ≤ Z.max (today_total s) (MAX_PER_DAY_TOTAL cfg)
  ∧ sent_count s' ≤ Z.max (sent_count s) (PER_RUN_LIMIT cfg).
Proof.
  intros H. exact (returns_run _ _ _ _ (main_loop_counters cfg E fuel emails s) H).
Qed.

Lemma loop_counters_stay_within_caps_witness :
  let s0 := mkLoop [] ∅ ∅ 0 0 0 None ∅ in
  let s' := on_failure (on_failure s0 "a@x.com") "c@y.com" in
  today_total s0 ≤ today_total s'
  ∧ today_total s' - today_total s0 = sent_count s' - sent_count s0
  ∧ today_total s' ≤ Z.max (today_total s0) (MAX_PER_DAY_TOTAL default_config)
  ∧ sent_count s' ≤ Z.max (sent_count s0) (PER_RUN_LIMIT default_config).
Proof.
  cbv zeta.
  apply (loop_counters_stay_within_caps default_config refusing_env 300
           ["a@x.com"; "c@y.com"] _ _ (fresh_world [])).
  vm_compute. reflexivity.
Defined.

(** X9. The exclusion sets hold case-folded addresses throughout: the
    set read from the log at startup does, and if both sets of a loop
    state do, so do those of the state the loop returns. *)
Theorem exclusion_sets_stay_folded
    (cfg : Config) (E : Env) (fuel : nat) (emails lines : list string)
    (s s' : LoopState) (w : World) :
  folded (sent_set (parse_lines lines))
  ∧ (folded (already s) → folded (failed_once s) →
     (run (main_loop cfg E fuel emails s) w).2 = Ret s' →
     folded (already s') ∧ folded (failed_once s')).
Proof.
  split.
  - intros a Ha. unfold sent_set in Ha.
    apply elem_of_list_to_set, list_elem_of_fmap in Ha as (r & -> & Hr).
    by apply parse_lines_folded in Hr.
  - intros Ha Hf H.
    exact (returns_run _ _ _ _
             (main_loop_folded cfg E fuel emails s (conj Ha Hf)) H).
Qed.

(** ** Text *)

Lemma lower_ascii_eqb_at (c : ascii) :
  Ascii.eqb (lower_ascii c) "@" = Ascii.eqb c "@".
Proof. by destruct c as [[] [] [] [] [] [] [] []]. Qed.



Lemma contains_lower_at (s : string) : contains "@" (lower s) = contains "@" s.
Proof.
  induction s as [|c s IH]; [done|]. simpl.
  by rewrite lower_ascii_eqb_at, IH.
Qed.


Lemma nonempty_lower (s : string) : nonempty (lower s) = nonempty s.
Proof. by destruct s. Qed.

Lemma contains_app (c : ascii) (a b : string) :
  contains c (a +:+ b) = contains c a || contains c b.
Proof.
  induction a as [|d a IH]; [done|]. simpl. by rewrite IH, orb_assoc.
Qed.

(** Every piece of a split is free of the separator. *)
Lemma split_pieces (sep : ascii) (s x : string) :
  x ∈ split sep s → contains sep x = false.
Proof.
  revert x. induction s as [|c s IH]; intros x; simpl.
  - intros H. apply list_elem_of_singleton in H as ->. done.
  - destruct (Ascii.eqb c sep) eqn:Hc.
    + intros H. apply elem_of_cons in H as [-> | H]; [done | by apply IH].
    + destruct (split sep s) as [|h t] eqn:Hs.
      * intros H. apply list_elem_of_singleton in H as ->. simpl.
        by rewrite Hc.
      * intros H. apply elem_of_cons in H as [-> | H].
        -- simpl. rewrite Hc. apply IH. by left.
        -- apply IH. by right.
Qed.


Lemma split_no_sep (sep : ascii) (s : string) :
  contains sep s = false → split sep s = [s].
Proof.
  induction s as [|c s IH]; [done|]. simpl.
  destruct (Ascii.eqb c sep); [done|]. simpl. intros H. by rewrite IH.
Qed.


(** The pieces of the case fold are the case folds of the pieces. *)
Lemma split_at_lower (s : string) :
  split "@" (lower s) = lower <$> split "@" s.
Proof.
  induction s as [|c s IH]; [done|]. simpl.
  rewrite lower_ascii_eqb_at, IH.
  destruct (Ascii.eqb c "@"); [done|]. by destruct (split "@" s).
Qed.

Lemma last_elem_of {A} (l : list A) (x : A) : last l = Some x → x ∈ l.
Proof.
  induction l as [|a [|b l] IH]; simpl; [done| |].
  - intros [= ->]. by left.
  - intros H. right. by apply IH.
Qed.

Lemma head_space_lstrip (s : string) : head_space (lstrip s) = false.
Proof.
  induction s as [|c s IH]; [done|]. simpl.
  destruct (is_space c) eqn:Hc; [done|]. simpl. done.
Qed.

Lemma lstrip_solid (s : string) : head_space s = false → lstrip s = s.
Proof. destruct s as [|c s]; [done|]. simpl. by intros ->. Qed.

Lemma head_space_rstrip (s : string) :
  head_space s = false → head_space (rstrip s) = false.
Proof.
  destruct s as [|c s]; [done|]. simpl. intros Hc.
  destruct (rstrip s); simpl; by rewrite ?Hc.
Qed.

Lemma rstrip_idem (s : string) : rstrip (rstrip s) = rstrip s.
Proof.
  induction s as [|c s IH]; [done|]. simpl.
  destruct (rstrip s) as [|d r] eqn:Hr.
  - destruct (is_space c) eqn:Hc; [done|]. simpl. by rewrite Hc.
  - change (rstrip (String c (String d r))) with
      (match rstrip (String d r) with
       | EmptyString => if is_space c then EmptyString else String c EmptyString
       | r' => String c r'
       end).
    by rewrite IH.
Qed.

Lemma strip_idem (s : string) : strip (strip s) = strip s.
Proof.
  unfold strip.
  rewrite (lstrip_solid (rstrip (lstrip s)));
    [apply rstrip_idem | apply head_space_rstrip, head_space_lstrip].
Qed.


(** ** Domains *)

(** X10. The domain of an address does not depend on the case of the
    address, is its own case fold, and holds no [@]; an address without
    [@] is its own domain. *)
Theorem domain_of_case_and_at (addr : string) :
  domain_of (lower addr) = domain_of addr
  ∧ lower (domain_of addr) = domain_of addr
  ∧ contains "@" (domain_of addr) = false
  ∧ (contains "@" addr = false → domain_of addr = lower addr).
Proof.
  unfold domain_of. split; [|split; [|split]].
  - rewrite split_at_lower, fmap_last.
    destruct (last (split "@" addr)); simpl; by rewrite ?lower_idem.
  - apply lower_idem.
  - rewrite contains_lower_at.
    destruct (last (split "@" addr)) as [x|] eqn:Hl; [|done]. simpl.
    eapply split_pieces, last_elem_of, Hl.
  - intros H. by rewrite split_no_sep.
Qed.

(** ** Recipient list *)

Lemma load_lines_entries (lines : list string) (a : string) :
  a ∈ load_lines lines →
  nonempty a = true ∧ contains "@" a = true ∧ strip a = a
  ∧ ∃ line, line ∈ lines ∧ a = strip line.
Proof.
  induction lines as [|line more IH]; cbn [load_lines].
  - intros H. by apply elem_of_nil in H.
  - destruct (nonempty (strip line) && contains "@" (strip line)) eqn:Hok.
    + intros H. apply elem_of_cons in H as [-> | H].
      * apply andb_prop in Hok as [? ?].
        split; [done|]. split; [done|]. split; [apply strip_idem|].
        exists line. split; [left | done].
      * destruct (IH H) as (? & ? & ? & l & ? & ?).
        split; [done|]. split; [done|]. split; [done|].
        exists l. split; [by right | done].
    + intros H. destruct (IH H) as (? & ? & ? & l & ? & ?).
      split; [done|]. split; [done|]. split; [done|].
      exists l. split; [by right | done].
Qed.

(** X11. Every recipient that [load_emails] keeps is a line of the file
    stripped of white space at both ends, is not empty and holds an
    [@]. So what the selector picks from the loaded list is never the
    empty text, and [main] reports that nothing is left only when the
    selector finds no eligible entry. *)
Theorem loaded_recipients_are_addresses
    (cfg : Config) (lines : list string) (already_sent failed_once : gset string)
    (used_domains_today : gmap string Z) (last_domain : option string) :
  (∀ a, a ∈ load_lines lines →
        nonempty a = true ∧ contains "@" a = true ∧ strip a = a
        ∧ ∃ line, line ∈ lines ∧ a = strip line)
  ∧ ∀ r, first_unsent_rotating cfg (load_lines lines) already_sent
           used_domains_today last_domain failed_once = Some r →
         nonempty r = true ∧ contains "@" r = true.
Proof.
  split; [apply load_lines_entries|].
  intros r Hr. apply scan_emails_sound in Hr as [? | (a & Ha & _ & ->)]; [done|].
  apply load_lines_entries in Ha as (? & ? & _).
  by rewrite nonempty_lower, contains_lower_at.
Qed.

(** ** The log file *)










Lemma date_isoformat_head (d : date) :
  ∃ c r, date_isoformat d = String c r.
Proof. unfold date_isoformat. cbn. eauto. Qed.

(** X13. A line of the log without a semicolon gives a row with the
    empty stamp: its address is held as already sent, and the row counts
    for no day, no domain of a day and no hour. *)
Theorem line_without_stamp (clk : Reading) (line dom : string) :
  nonempty (strip line) = true → contains ";" (strip line) = false →
  parse_lines [line] = [(lower (strip line), EmptyString)]
  ∧ lower (strip line) ∈ sent_set (parse_lines [line])
  ∧ count_today clk (parse_lines [line]) = 0
  ∧ count_today_domain clk (parse_lines [line]) dom = 0
  ∧ count_this_hour clk (parse_lines [line]) = 0.
Proof.
  intros Hne Hsemi.
  assert (parse_lines [line] = [(lower (strip line), EmptyString)]) as ->.
  { cbn [parse_lines]. rewrite Hne. by rewrite split_no_sep. }
  split; [done|]. split.
  - unfold sent_set. cbn. apply elem_of_union_l. by apply elem_of_singleton.
  - unfold count_today, count_today_domain, count_this_hour. cbn [count_if snd fst].
    destruct (date_isoformat_head (date_today clk)) as (c & r & ->).
    done.
Qed.

Lemma line_without_stamp_witness :
  parse_lines ["  Old@Entry.org "] = [(lower (strip "  Old@Entry.org "), EmptyString)].
Proof.
  refine (proj1 (line_without_stamp (reading 2024 1 2 8 0 0 2)
                   "  Old@Entry.org " "entry.org" _ _)); reflexivity.
Defined.

(** ** Per-domain counts at startup *)

Lemma get0_insert (used : gmap string Z) (d d' : string) (v : Z) :
  get0 (<[d := v]> used) d' = if decide (d = d') then v else get0 used d'.
Proof.
  unfold get0. destruct (decide (d = d')) as [->|Hne].
  - by rewrite lookup_insert_eq.
  - by rewrite lookup_insert_ne.
Qed.

Lemma tally_domains_counts (E : Env) (clk : Reading) (rows : list row)
    (used : gmap string Z) (w : World) :
  (∀ k, (k < length rows)%nat →
        date_today (clock E (step w + k)) = date_today clk) →
  ∃ w' used',
    run (tally_domains E rows used) w = (w', Ret used')
    ∧ ∀ d, get0 used' d = get0 used d + count_today_domain clk rows d.
Proof.
  revert used w. induction rows as [|[em ts] rows IH]; intros used w Hdate.
  - exists w, used. split; [done|]. intros d. cbn. lia.
  - cbn [tally_domains]. rewrite run_bind.
    cbn [read_clock run mbind M_bind tick mret M_ret].
    assert (date_today (clock E (step w)) = date_today clk) as ->.
    { rewrite <- (Hdate 0%nat) by (cbn; lia). by rewrite Nat.add_0_r. }
    set (w1 := mkWorld (S (step w)) (sent_log w) (bcc_on w) (trace w)).
    assert (∀ k, (k < length rows)%nat →
                 date_today (clock E (step w1 + k)) = date_today clk) as Hdate'.
    { intros k Hk. cbn [step w1].
      replace (S (step w) + k)%nat with (step w + S k)%nat by lia.
      apply Hdate. cbn. lia. }
    unfold count_today_domain. cbn [count_if snd fst].
    destruct (startswith ts (date_isoformat (date_today clk))); cbn [andb].
    + destruct (IH (<[domain_of em := get0 used (domain_of em) + 1]> used) w1 Hdate')
        as (w' & used' & -> & Hused).
      exists w', used'. split; [done|]. intros d.
      rewrite Hused, get0_insert. unfold count_today_domain.
      destruct (decide (domain_of em = d)) as [Heq|Hne].
      * rewrite (bool_decide_eq_true_2 _ Heq). subst d. lia.
      * rewrite (bool_decide_eq_false_2 _ Hne). lia.
    + destruct (IH used w1 Hdate') as (w' & used' & -> & Hused).
      exists w', used'. split; [done|]. intros d.
      rewrite Hused. unfold count_today_domain. lia.
Qed.

(** X14. The dictionary [used_domains_today] that [main] fills at
    startup holds, for every domain, the number that
    [count_today_domain] gives for it, as long as the local date does not
    change while the rows are gone through; a domain without a row of
    today is absent and reads as 0. *)
Theorem startup_domain_counts (E : Env) (clk : Reading) (rows : list row) (w : World) :
  (∀ k, (k < length rows)%nat →
        date_today (clock E (step w + k)) = date_today clk) →
  ∃ w' used,
    run (tally_domains E rows ∅) w = (w', Ret used)
    ∧ ∀ d, get0 used d = count_today_domain clk rows d.
Proof.
  intros Hdate.
  destruct (tally_domains_counts E clk rows ∅ w Hdate) as (w' & used & Hrun & Hused).
  exists w', used. split; [done|]. intros d. rewrite Hused. unfold get0.
  rewrite lookup_empty. cbn. lia.
Qed.

Lemma startup_domain_counts_witness :
  ∃ w' used,
    run (tally_domains refusing_env
           [("a@x.com", "2024-01-02T08:10:00+00:00");
            ("b@x.com", "2024-01-01T09:10:00+00:00")] ∅) (fresh_world [])
    = (w', Ret used)
    ∧ ∀ d, get0 used d
           = count_today_domain (reading 2024 1 2 10 0 0 0)
               [("a@x.com", "2024-01-02T08:10:00+00:00");
                ("b@x.com", "2024-01-01T09:10:00+00:00")] d.
Proof.
  apply (startup_domain_counts refusing_env (reading 2024 1 2 10 0 0 0)).
  intros k Hk. cbn in Hk.
  destruct k as [|[|k]]; [reflexivity | reflexivity | lia].
Defined.

(** ** How computations stop *)

Lemma stops_ret {A} (a : A) (H : halt → Prop) : stops (mret a) H.
Proof. intros w. exact I. Qed.

Lemma stops_halt {A} (h : halt) (H : halt → Prop) :
  H h → stops (mkM (λ w, (w, @Halt A h))) H.
Proof. intros Hh w. exact Hh. Qed.

Lemma stops_total {A} (f : World → World * A) (H : halt → Prop) :
  stops (mkM (λ w, ((f w).1, Ret (f w).2))) H.
Proof. intros w. exact I. Qed.

Lemma stops_bind {A B} (m : M A) (k : A → M B) (H : halt → Prop) :
  stops m H → (∀ a, stops (k a) H) → stops (m ≫= k) H.
Proof.
  intros Hm Hk w. rewrite run_bind. specialize (Hm w).
  destruct (run m w) as [w1 [a|h]]; [apply Hk | exact Hm].
Qed.

(** What [try] / [except Exception] lets through: what the handler does
    and, of the body, everything but an exception. *)
Lemma stops_try_except {A} (m : M A) (h : exn → M A) (H : halt → Prop) :
  stops m (λ x, match x with Raised _ => True | _ => H x end) →
  (∀ e, stops (h e) H) → stops (try_except m h) H.
Proof.
  intros Hm Hh w. unfold try_except. cbn [run]. specialize (Hm w).
  destruct (run m w) as [w1 [a|[e| |]]]; try done. apply Hh.
Qed.

Lemma stops_weaken {A} (m : M A) (H H' : halt → Prop) :
  stops m H → (∀ h, H h → H' h) → stops m H'.
Proof.
  intros Hm HH w. specialize (Hm w). destruct (run m w).2; [done | by apply HH].
Qed.

Lemma stops_run {A} (m : M A) (H : halt → Prop) (w : World) (h : halt) :
  stops m H → (run m w).2 = Halt h → H h.
Proof. intros Hm Hr. specialize (Hm w). by rewrite Hr in Hm. Qed.

Ltac stops_steps :=
  repeat match goal with
  | |- stops (_ ≫= _) _ => apply stops_bind; [|intros]
  | |- stops (try_except _ _) _ => apply stops_try_except; [|intros]
  | |- stops (if ?b then _ else _) _ => destruct b
  | |- stops (match ?x with _ => _ end) _ => destruct x
  | |- stops (mret _) _ => apply stops_ret
  | |- stops tick _ => intros ?; exact I
  | |- stops (emit _) _ => intros ?; exact I
  | |- stops (print _) _ => intros ?; exact I
  | |- stops (sleep _) _ => intros ?; exact I
  | |- stops get_bcc_on _ => intros ?; exact I
  | |- stops (set_bcc_on _) _ => intros ?; exact I
  | |- stops get_sent_log _ => intros ?; exact I
  | |- stops (set_sent_log _) _ => intros ?; exact I
  | |- stops (raise _) _ => apply stops_halt
  | |- stops sys_exit _ => apply stops_halt
  | |- stops out_of_fuel _ => apply stops_halt
  end.

Section Stops.
Variable cfg : Config.
Variable E : Env.

Lemma stops_read_clock H : stops (read_clock E) H.
Proof. unfold read_clock. stops_steps. Qed.

Lemma stops_has_connectivity H : stops (has_connectivity E) H.
Proof. unfold has_connectivity. stops_steps. Qed.

Lemma stops_kbhit_getwch H : stops (kbhit_getwch E) H.
Proof. unfold kbhit_getwch. stops_steps. Qed.




Lemma stops_append_sent email H : stops (append_sent E email) H.
Proof. unfold append_sent. stops_steps. apply stops_read_clock. Qed.

(** [smtp_send_one] stops only by raising. *)
Lemma stops_smtp_send_one msg :
  stops (smtp_send_one cfg E msg)
    (λ h, h = Raised RuntimeError ∨ h = Raised SMTPException).
Proof. unfold smtp_send_one. stops_steps; eauto. Qed.

Lemma stops_drain_keys fuel : stops (drain_keys cfg E fuel) (λ h, h = Unfinished).
Proof.
  induction fuel as [|fuel IH]; cbn [drain_keys]; stops_steps;
    try done; try apply stops_kbhit_getwch; try apply stops_has_connectivity.
  eapply stops_weaken; [apply stops_smtp_send_one|].
  by intros h [-> | ->].
Qed.

Lemma stops_hotkey_loop fuel during_wait :
  stops (_hotkey_loop cfg E fuel during_wait) (λ h, h = Unfinished).
Proof. unfold _hotkey_loop. stops_steps; apply stops_drain_keys. Qed.

Lemma stops_wait_for_connectivity fuel :
  stops (wait_for_connectivity cfg E fuel) (λ h, h = Unfinished).
Proof.
  induction fuel as [|fuel IH]; cbn [wait_for_connectivity]; stops_steps;
    try done; try apply stops_has_connectivity; try apply stops_hotkey_loop.
Qed.

Lemma stops_wait_until fuel target :
  stops (wait_until cfg E fuel target) (λ h, h = Unfinished).
Proof.
  induction fuel as [|fuel IH]; cbn [wait_until]; stops_steps;
    try done; try apply stops_read_clock; try apply stops_hotkey_loop.
Qed.


Lemma stops_attempt_send s addr H : stops (attempt_send cfg E s addr) H.
Proof.
  unfold attempt_send. stops_steps; try apply stops_append_sent.
  eapply stops_weaken; [apply stops_smtp_send_one|].
  by intros h [-> | ->].
Qed.

Lemma stops_main_test H : stops (main_test cfg E) H.
Proof.
  unfold main_test. stops_steps.
  eapply stops_weaken; [apply stops_smtp_send_one|].
  by intros h [-> | ->].
Qed.

End Stops.

(** X15. The waits stop short of an answer only when the fuel of the
    model runs out: [wait_until], [wait_for_connectivity] and
    [_hotkey_loop] raise nothing and never end the process, although a
    test send made from them may fail; and the transmission of the loop
    always comes back, whatever the server does. *)
Theorem waits_raise_nothing
    (cfg : Config) (E : Env) (fuel : nat) (target : datetime)
    (during_wait : bool) (s : LoopState) (addr : string) (w : World) (h : halt) :
  ((run (wait_until cfg E fuel target) w).2 = Halt h → h = Unfinished)
  ∧ ((run (wait_for_connectivity cfg E fuel) w).2 = Halt h → h = Unfinished)
  ∧ ((run (_hotkey_loop cfg E fuel during_wait) w).2 = Halt h → h = Unfinished)
  ∧ (run (attempt_send cfg E s addr) w).2 ≠ Halt h.
Proof.
  split; [|split; [|split]].
  - apply (stops_run _ _ _ _ (stops_wait_until cfg E fuel target)).
  - apply (stops_run _ _ _ _ (stops_wait_for_connectivity cfg E fuel)).
  - apply (stops_run _ _ _ _ (stops_hotkey_loop cfg E fuel during_wait)).
  - intros Hr.
    exact (stops_run _ (λ _, False) _ _ (stops_attempt_send cfg E s addr _) Hr).
Qed.

(** ** Waiting for the active window *)

Lemma run_read_clock {A} (E : Env) (k : Reading → M A) (w : World) :
  run (read_clock E ≫= k) w
  = run (k (clock E (step w)))
      (mkWorld (S (step w)) (sent_log w) (bcc_on w) (trace w)).
Proof. reflexivity. Qed.

Lemma run_print {A} (m : Message) (k : unit → M A) (w : World) :
  run (print m ≫= k) w
  = run (k tt) (mkWorld (step w) (sent_log w) (bcc_on w) (trace w ++ [Printed m])).
Proof. reflexivity. Qed.

(** X16. [ensure_business_window] reads the clock once and returns at
    once when that instant is not quiet. When it is quiet and the
    function returns, the clock has shown the next start of day computed
    from a second reading, and that was its last interaction. It ends the
    process only right after the abort line. *)
Theorem ensure_business_window_waits
    (cfg : Config) (E : Env) (fuel : nat) (w w' : World) (r : outcome unit) :
  run (ensure_business_window cfg E fuel) w = (w', r) →
  (in_quiet_hours cfg (datetime_now (clock E (step w))) = false →
   w' = mkWorld (S (step w)) (sent_log w) (bcc_on w) (trace w) ∧ r = Ret tt)
  ∧ (in_quiet_hours cfg (datetime_now (clock E (step w))) = true → r = Ret tt →
     ∃ start n,
       next_start_of_day_at (datetime_now (clock E (S (step w))))
         (QUIET_END_HOUR cfg) 0 = Some start
       ∧ step w' = S n ∧ ge (datetime_now (clock E n)) start = true)
  ∧ (r = Halt Exited → ∃ evs, trace w' = trace w ++ evs ++ [Printed MsgAbort]).
Proof.
  unfold ensure_business_window. rewrite run_read_clock.
  destruct (in_quiet_hours cfg _) eqn:Hq.
  2:{ cbn. intros [= <- <-]. done. }
  rewrite run_read_clock. cbn [step]. rewrite run_bind.
  destruct (next_start_of_day_at _ _ _) as [start|] eqn:Hstart;
    cbn [or_value_error run mret M_ret raise].
  2:{ intros [= <- <-]. done. }
  rewrite run_print. cbn [step sent_log bcc_on trace]. rewrite run_bind.
  match goal with |- context [run (wait_until ?c ?e ?f ?t) ?w0] =>
    pose proof (stops_wait_until c e f t w0) as Hstop;
    destruct (run (wait_until c e f t) w0) as [w1 [[|]|h]] eqn:Hwait end;
    cbn [negb snd] in *.
  - cbn. intros [= <- <-]. split; [done|]. split; [|done]. intros _ _.
    apply wait_until_true in Hwait as (n & Hn & _ & Hge). eauto.
  - cbn. intros [= <- <-]. split; [done|]. split; [done|]. intros _.
    apply wait_until_false in Hwait as (evs & Ht). cbn in Ht.
    exists (Printed (MsgQuiet start) :: evs). rewrite Ht. by rewrite <- app_assoc.
  - intros [= <- <-]. subst h. done.
Qed.

Lemma ensure_business_window_waits_witness :
  (run (ensure_business_window default_config refusing_env 5) (fresh_world [])).1
  = mkWorld 1 [] true []
  ∧ (run (ensure_business_window default_config refusing_env 5) (fresh_world [])).2
    = Ret tt.
Proof.
  refine (proj1 (ensure_business_window_waits default_config refusing_env 5
                   (fresh_world []) _ _ _) _); reflexivity.
Defined.

(** ** Planning the next send *)

(** Seconds added to a full hour. *)
Lemma add_seconds_on_the_hour (d : date) (h j : Z) (o : option Z) :
  0 ≤ h ≤ 23 → 0 ≤ j < 60 →
  add_seconds (mkdatetime d h 0 0 0 o) j = mkdatetime d h 0 j 0 o.
Proof.
  intros Hh Hj. unfold add_seconds, add_us, at_time_us, time_us, us_per_day,
    us_per_second. cbn [on hour minute second microsecond utcoffset].
  replace (((h * 60 + 0) * 60 + 0) * 1000000 + 0 + j * 1000000)
    with ((h * 3600 + j) * 1000000) by lia.
  assert ((h * 3600 + j) * 1000000 / (86400 * 1000000) = 0) as ->
    by (apply Z.div_small; lia).
  assert ((h * 3600 + j) * 1000000 mod (86400 * 1000000)
          = (h * 3600 + j) * 1000000) as -> by (apply Z.mod_small; lia).
  assert ((h * 3600 + j) * 1000000 / (3600 * 1000000) = h) as ->
    by (symmetry; apply (Z.div_unique _ _ h (j * 1000000)); lia).
  assert ((h * 3600 + j) * 1000000 / (60 * 1000000) = h * 60) as ->
    by (symmetry; apply (Z.div_unique _ _ (h * 60) (j * 1000000)); lia).
  assert ((h * 3600 + j) * 1000000 / 1000000 = h * 3600 + j) as ->
    by (apply Z.div_mul; lia).
  assert ((h * 3600 + j) * 1000000 mod 1000000 = 0) as ->
    by (apply Z.mod_mul; lia).
  assert ((h * 60) mod 60 = 0) as -> by (apply Z.mod_mul; lia).
  assert ((h * 3600 + j) mod 60 = j) as ->
    by (symmetry; apply (Z.mod_unique _ _ (h * 60) j); lia).
  reflexivity.
Qed.

Lemma earlier_hour_same_day (t : datetime) h mi s us o :
  hour t < h → lt t (mkdatetime (on t) h mi s us o) = true.
Proof.
  intros Hh. unfold lt, key. cbn [on hour minute second microsecond].
  rewrite !lex_lt_cons.
  right; split; [done|]. right; split; [done|]. right; split; [done|].
  by left.
Qed.

(** X17. With both hours in 0..23 and a quiet window that spans
    midnight, a candidate instant ([now] plus the delay) that falls in
    quiet hours is replaced by [QUIET_END_HOUR]:00 plus the jitter
    seconds, on the day after when its hour is at or past
    [QUIET_START_HOUR] and on the same day otherwise; the planned instant
    is strictly after the candidate and is not quiet. *)
Theorem schedule_next_leaves_quiet_hours
    (cfg : Config) (now_local : datetime) (base_delay_min jitter : Z) :
  0 ≤ QUIET_END_HOUR cfg → QUIET_END_HOUR cfg < QUIET_START_HOUR cfg →
  QUIET_START_HOUR cfg ≤ 23 → 5 ≤ jitter ≤ 45 →
  let target := add_minutes now_local base_delay_min in
  in_quiet_hours cfg target = true →
  ∃ planned,
    schedule_next cfg now_local base_delay_min jitter = Some planned
    ∧ planned = mkdatetime
                  (if QUIET_START_HOUR cfg <=? hour target
                   then next_day (on target) else on target)
                  (QUIET_END_HOUR cfg) 0 jitter 0 None
    ∧ lt target planned = true
    ∧ in_quiet_hours cfg planned = false.
Proof.
  intros He Hspan Hs Hj target Hquiet. unfold schedule_next. fold target.
  rewrite Hquiet. unfold combine.
  assert (valid_time (QUIET_END_HOUR cfg) 0 0 0 = true) as ->.
  { unfold valid_time. repeat (apply andb_true_intro; split); lia. }
  cbn [mbind option_bind]. rewrite add_seconds_on_the_hour by lia.
  eexists. split; [reflexivity|]. split; [reflexivity|]. split.
  - destruct (Z.leb_spec (QUIET_START_HOUR cfg) (hour target)).
    + destruct target. apply next_day_later.
    + apply earlier_hour_same_day.
      unfold in_quiet_hours in Hquiet. apply orb_true_iff in Hquiet as [Hq|Hq].
      * apply Z.leb_le in Hq. lia.
      * by apply Z.ltb_lt in Hq.
  - unfold in_quiet_hours. cbn [hour].
    apply orb_false_intro; [apply Z.leb_gt | apply Z.ltb_ge]; lia.
Qed.

Lemma schedule_next_leaves_quiet_hours_witness :
  ∃ planned,
    schedule_next default_config (mkdatetime (mkdate 2024 12 31) 19 30 0 0 None) 40 9
    = Some planned
    ∧ planned = mkdatetime
                  (if QUIET_START_HOUR default_config
                      <=? hour (add_minutes (mkdatetime (mkdate 2024 12 31) 19 30 0 0 None) 40)
                   then next_day (on (add_minutes (mkdatetime (mkdate 2024 12 31) 19 30 0 0 None) 40))
                   else on (add_minutes (mkdatetime (mkdate 2024 12 31) 19 30 0 0 None) 40))
                  (QUIET_END_HOUR default_config) 0 9 0 None
    ∧ lt (add_minutes (mkdatetime (mkdate 2024 12 31) 19 30 0 0 None) 40) planned = true
    ∧ in_quiet_hours default_config planned = false.
Proof.
  apply (schedule_next_leaves_quiet_hours default_config
           (mkdatetime (mkdate 2024 12 31) 19 30 0 0 None) 40 9);
    try (cbn; lia).
  reflexivity.
Defined.

(** ** Exceptions that leave [main] *)



Section MainStops.
Variable cfg : Config.
Variable E : Env.
Hypothesis quiet_end_valid : 0 ≤ QUIET_END_HOUR cfg ≤ 23.








End MainStops.



(** ** The log file along a run *)






Section LogGrows.
Variable cfg : Config.
Variable E : Env.












End LogGrows.


(** ** Hotkeys *)

Lemma drain_plain_keys (cfg : Config) (E : Env) (ks : list ascii) :
  ∀ (fuel : nat) (w : World),
    (length ks < fuel)%nat →
    (∀ i k, ks !! i = Some k →
            keypress E (step w + i) = Some k ∧ plain_key k = true) →
    keypress E (step w + length ks) = None →
    ∃ w', run (drain_keys cfg E fuel) w = (w', Ret true)
          ∧ bcc_on w' = toggled (bcc_on w) ks
          ∧ sent_log w' = sent_log w
          ∧ step w' = S (step w + length ks).
Proof.
  induction ks as [|k ks IH]; intros fuel w Hfuel Hkeys Hend;
    (destruct fuel as [|fuel]; [cbn in Hfuel; lia|]); cbn [drain_keys].
  - rewrite run_bind. cbn [kbhit_getwch run mbind M_bind tick mret M_ret].
    cbn [length] in Hend. rewrite Nat.add_0_r in Hend. rewrite Hend.
    eexists. split; [reflexivity|]. cbn. rewrite Nat.add_0_r. done.
  - rewrite run_bind. cbn [kbhit_getwch run mbind M_bind tick mret M_ret].
    destruct (Hkeys 0%nat k eq_refl) as [Hk Hplain].
    rewrite Nat.add_0_r in Hk. rewrite Hk.
    unfold plain_key in Hplain. apply andb_prop in Hplain as [Hq Ht].
    apply negb_true_iff in Hq, Ht. rewrite Hq, Ht.
    rewrite run_bind. cbn [run mret M_ret]. rewrite run_bind.
    set (w0 := mkWorld (S (step w)) (sent_log w) (bcc_on w) (trace w)).
    assert (∃ w1, run (if Ascii.eqb (lower_ascii k) "o"
                       then b ← get_bcc_on;
                            set_bcc_on (negb b);; print (MsgBcc (negb b))
                       else mret tt) w0 = (w1, Ret tt)
                  ∧ step w1 = S (step w) ∧ sent_log w1 = sent_log w
                  ∧ bcc_on w1 = (if Ascii.eqb (lower_ascii k) "o"
                                 then negb (bcc_on w) else bcc_on w))
      as (w1 & -> & Hstep & Hlog & Hbcc).
    { destruct (Ascii.eqb (lower_ascii k) "o"); eexists; cbn; done. }
    destruct (IH fuel w1) as (w' & Hrun & Hb & Hl & Hs).
    + cbn [length] in Hfuel. lia.
    + intros i k' Hi. rewrite Hstep.
      replace (S (step w) + i)%nat with (step w + S i)%nat by lia.
      by apply Hkeys.
    + rewrite Hstep. cbn [length] in Hend.
      by replace (S (step w) + length ks)%nat
        with (step w + S (length ks))%nat by lia.
    + exists w'. split; [done|]. cbn [toggled length].
      rewrite Hb, Hbcc, Hl, Hlog, Hs, Hstep. split; [done|]. split; [done|]. lia.
Qed.

(** X20. Where there is a keyboard, [_hotkey_loop] reads the waiting
    keys up to the first moment none waits, and if none of them is [q]
    or [t] it answers [True], has flipped [State.bcc_on] once for each
    [o] or [O] among them and has left the log as it was: every other key
    is ignored. *)
Theorem hotkeys_toggle_bcc
    (cfg : Config) (E : Env) (fuel : nat) (ks : list ascii) (w : World) :
  HAS_MSVCRT cfg = true → (length ks < fuel)%nat →
  (∀ i k, ks !! i = Some k →
          keypress E (step w + i) = Some k ∧ plain_key k = true) →
  keypress E (step w + length ks) = None →
  ∃ w', run (_hotkey_loop cfg E fuel false) w = (w', Ret true)
        ∧ bcc_on w' = toggled (bcc_on w) ks
        ∧ sent_log w' = sent_log w
        ∧ step w' = S (step w + length ks).
Proof.
  intros Hk Hfuel Hkeys Hend. unfold _hotkey_loop. rewrite Hk. cbn [negb].
  rewrite run_bind. cbn [run mret M_ret].
  by apply drain_plain_keys.
Qed.

Lemma hotkeys_toggle_bcc_witness :
  let cfg := {| QUIET_START_HOUR := 20; QUIET_END_HOUR := 7;
                MAX_PER_DAY_TOTAL := 78; MAX_PER_HOUR_TOTAL := 12;
                MAX_PER_DAY_PER_DOMAIN := 5; PER_RUN_LIMIT := 999999;
                SMTP_PASS := true; BCC_DEFAULT := "boss@example.com";
                TEST_ADDRESS := "me@example.com"; HAS_MSVCRT := true |} in
  let E := {| clock := minute_clock 2024 1 2 10 0 0; reachable := λ _, true;
              keypress := λ n, ["o"; "x"; "O"; "o"]%char !! n;
              delivered := λ _, true;
              lognormal := λ _, (30 # 1)%Q; entropy := λ _, 0;
              appended_by_others := λ _, []; emails_txt := None;
              argv := ["bulk_email_scheduler.py"] |} in
  ∃ w', run (_hotkey_loop cfg E 9 false) (fresh_world []) = (w', Ret true)
        ∧ bcc_on w' = toggled true ["o"; "x"; "O"; "o"]%char
        ∧ sent_log w' = []
        ∧ step w' = 5%nat.
Proof.
  cbv zeta.
  refine (hotkeys_toggle_bcc _ _ 9 ["o"; "x"; "O"; "o"]%char (fresh_world []) _ _ _ _).
  - reflexivity.
  - cbn. lia.
  - intros i k Hi. cbn [step fresh_world keypress Nat.add].
    split; [done|].
    do 4 (destruct i as [|i]; [by injection Hi as <-|]). done.
  - reflexivity.
Defined.

(** ** Stamps read back *)

Lemma append_assoc (a b c : string) : (a +:+ b) +:+ c = a +:+ (b +:+ c).
Proof.
  induction a as [|x a IH]; [done|].
  change (String x ((a +:+ b) +:+ c) = String x (a +:+ (b +:+ c))).
  by rewrite IH.
Qed.

Lemma append_nil_r (a : string) : a +:+ EmptyString = a.
Proof.
  induction a as [|x a IH]; [done|].
  change (String x (a +:+ EmptyString) = String x a). by rewrite IH.
Qed.

Lemma length_append (a b : string) :
  String.length (a +:+ b) = (String.length a + String.length b)%nat.
Proof.
  induction a as [|x a IH]; [done|].
  change (S (String.length (a +:+ b)) = S (String.length a + String.length b)).
  by rewrite IH.
Qed.

Lemma length_digits (w : nat) (n : Z) : String.length (digits w n) = w.
Proof.
  revert n. induction w as [|w IH]; intros n; [done|]. cbn [digits].
  rewrite length_append, IH. cbn. lia.
Qed.

Lemma digit_val_digit (n : Z) : digit_val (digit (n mod 10)) = Some (n mod 10).
Proof.
  pose proof (Z.mod_pos_bound n 10 ltac:(lia)) as Hb.
  assert (∃ k, (k < 10)%nat ∧ n mod 10 = Z.of_nat k) as (k & Hk & ->).
  { exists (Z.to_nat (n mod 10)). lia. }
  unfold digit. rewrite Nat2Z.id.
  do 10 (destruct k as [|k]; [done|]). lia.
Qed.

(** One more digit at the end of what [number] reads. *)
Lemma number_snoc (k : nat) (acc v d : Z) (s r : string) (c : ascii) :
  number k acc s = Some (v, String c r) → digit_val c = Some d →
  number (S k) acc s = Some (v * 10 + d, r).
Proof.
  revert acc s. induction k as [|k IH]; intros acc s; cbn [number].
  - intros [= -> ->] ->. done.
  - destruct s as [|c' s]; [done|].
    destruct (digit_val c') as [d'|]; [|done].
    intros H Hd. by apply IH.
Qed.

(** [number] reads back what [digits] wrote. *)
Lemma number_digits (w : nat) (acc n : Z) (rest : string) :
  0 ≤ n < 10 ^ Z.of_nat w →
  number w acc (digits w n +:+ rest) = Some (acc * 10 ^ Z.of_nat w + n, rest).
Proof.
  revert n rest. induction w as [|w IH]; intros n rest Hn.
  - cbn in *. f_equal. f_equal. lia.
  - cbn [digits]. rewrite append_assoc.
    change (String (digit (n mod 10)) EmptyString +:+ rest)
      with (String (digit (n mod 10)) rest).
    rewrite Nat2Z.inj_succ, Z.pow_succ_r in * by lia.
    assert (0 ≤ n / 10 < 10 ^ Z.of_nat w) as Hdiv.
    { split; [apply Z.div_pos; lia|]. apply Z.div_lt_upper_bound; lia. }
    rewrite (number_snoc w acc _ _ _ _ _ (IH _ _ Hdiv) (digit_val_digit n)).
    f_equal. f_equal. pose proof (Z.div_mod n 10 ltac:(lia)). lia.
Qed.

Lemma cut_none (c : ascii) (s : string) : contains c s = false → cut c s = None.
Proof.
  induction s as [|d s IH]; [done|]. simpl.
  destruct (Ascii.eqb d c); [done|]. simpl. intros H. by rewrite IH.
Qed.

Lemma cut_app (c : ascii) (a b : string) :
  contains c a = false → cut c (a +:+ String c b) = Some (a, b).
Proof.
  induction a as [|d a IH]; simpl.
  - intros _. by rewrite Ascii.eqb_refl.
  - destruct (Ascii.eqb d c); [done|]. simpl. intros H. by rewrite IH.
Qed.

Lemma digits_without (c : ascii) (w : nat) (n : Z) :
  digit_val c = None → contains c (digits w n) = false.
Proof.
  intros Hc. revert n. induction w as [|w IH]; intros n; [done|].
  cbn [digits]. rewrite contains_app, IH. cbn.
  destruct (Ascii.eqb_spec (digit (n mod 10)) c) as [Heq|]; [|done].
  rewrite <- Heq, digit_val_digit in Hc. done.
Qed.

(** The time of day as [isoformat] writes it, without the offset. *)
Lemma hh_mm_ss_ff_written (h mi s us : Z) :
  valid_time h mi s us = true →
  hh_mm_ss_ff (digits 2 h +:+ ":" +:+ digits 2 mi +:+ ":" +:+ digits 2 s
               +:+ (if us =? 0 then "" else "." +:+ digits 6 us))
  = Some (h, mi, s, us).
Proof.
  unfold valid_time. rewrite !andb_true_iff, !Z.leb_le. intros Hv.
  unfold hh_mm_ss_ff.
  rewrite (number_digits 2) by (cbn; lia). cbn [mbind option_bind].
  change (":" +:+ ?x) with (String ":" x). cbv iota.
  rewrite (number_digits 2) by (cbn; lia). cbn [mbind option_bind].
  change (":" +:+ ?x) with (String ":" x). cbv iota.
  rewrite (number_digits 2) by (cbn; lia). cbn [mbind option_bind].
  replace (0 * 10 ^ Z.of_nat 2 + h) with h by lia.
  replace (0 * 10 ^ Z.of_nat 2 + mi) with mi by lia.
  replace (0 * 10 ^ Z.of_nat 2 + s) with s by lia.
  destruct (Z.eqb_spec us 0) as [->|Hus]; [done|].
  change ("." +:+ ?x) with (String "." x). cbv iota.
  rewrite length_digits. cbn [Nat.eqb].
  rewrite <- (append_nil_r (digits 6 us)).
  rewrite (number_digits 6) by (cbn; lia). cbn [mbind option_bind].
  do 2 f_equal; lia.
Qed.

Lemma utc_stamp_parses (d : date) (h mi s us : Z) :
  valid_date d = true → year d ≤ 9999 → valid_time h mi s us = true →
  fromisoformat (isoformat (mkdatetime d h mi s us (Some 0)))
  = Some (mkdatetime d h mi s us (Some 0)).
Proof.
  intros Hd Hy Ht. pose proof Hd as Hd'. pose proof Ht as Ht'.
  unfold valid_date in Hd'. rewrite !andb_true_iff, !Z.leb_le in Hd'.
  assert (day d ≤ 31).
  { destruct Hd' as [_ Hday]. unfold days_in_month in Hday.
    repeat match goal with
           | H : context [if ?b then _ else _] |- _ => destruct b
           end; lia. }
  unfold isoformat, date_isoformat, fromisoformat.
  cbn [on hour minute second microsecond utcoffset].
  change (offset_isoformat 0) with "+00:00".
  rewrite !append_assoc.
  rewrite (number_digits 4) by (cbn; lia). cbn [mbind option_bind].
  change ("-" +:+ ?x) with (String "-" x). cbv iota.
  rewrite (number_digits 2) by (cbn; lia). cbn [mbind option_bind].
  change ("-" +:+ ?x) with (String "-" x). cbv iota.
  rewrite (number_digits 2) by (cbn; lia). cbn [mbind option_bind].
  replace (0 * 10 ^ Z.of_nat 4 + year d) with (year d) by lia.
  replace (0 * 10 ^ Z.of_nat 2 + month d) with (month d) by lia.
  replace (0 * 10 ^ Z.of_nat 2 + day d) with (day d) by lia.
  assert (mkdate (year d) (month d) (day d) = d) as -> by (by destruct d).
  rewrite Hd.
  change ("T" +:+ ?x) with (String "T" x). cbv iota.
  unfold isoformat_time.
  set (frac := if us =? 0 then EmptyString else "." +:+ digits 6 us).
  assert (contains "-" frac = false ∧ contains "+" frac = false) as [Hf1 Hf2].
  { subst frac. destruct (us =? 0); [done|].
    rewrite !contains_app, !digits_without by done. done. }
  rewrite cut_none.
  2:{ rewrite !contains_app, !digits_without, Hf1 by done. done. }
  assert (digits 2 h +:+ ":" +:+ digits 2 mi +:+ ":" +:+ digits 2 s +:+ frac +:+ "+00:00"
          = (digits 2 h +:+ ":" +:+ digits 2 mi +:+ ":" +:+ digits 2 s +:+ frac)
            +:+ String "+" "00:00") as ->.
  { by rewrite !append_assoc. }
  rewrite cut_app.
  2:{ rewrite !contains_app, !digits_without, Hf2 by done. done. }
  subst frac. rewrite hh_mm_ss_ff_written by done.
  cbn [mbind option_bind]. change (tz_offset false "00:00") with (Some 0).
  cbn [mbind option_bind]. by rewrite Ht.
Qed.

(** A time shifted by nothing. *)
Lemma add_us_zero (d : date) (h mi s us : Z) (o : option Z) :
  valid_time h mi s us = true →
  add_us (mkdatetime d h mi s us o) 0 = mkdatetime d h mi s us o.
Proof.
  unfold valid_time. rewrite !andb_true_iff, !Z.leb_le. intros Hv.
  unfold add_us, at_time_us, time_us, us_per_day, us_per_second.
  cbn [on hour minute second microsecond utcoffset].
  rewrite Z.add_0_r.
  set (total := ((h * 60 + mi) * 60 + s) * 1000000 + us).
  assert (0 ≤ total < 86400 * 1000000) as Htot by (subst total; lia).
  rewrite (Z.div_small total) by lia. rewrite (Z.mod_small total) by lia.
  assert (total / (3600 * 1000000) = h) as ->.
  { symmetry. apply (Z.div_unique _ _ h ((mi * 60 + s) * 1000000 + us));
      subst total; lia. }
  assert (total / (60 * 1000000) = h * 60 + mi) as ->.
  { symmetry. apply (Z.div_unique _ _ (h * 60 + mi) (s * 1000000 + us));
      subst total; lia. }
  assert (total / 1000000 = (h * 60 + mi) * 60 + s) as ->.
  { symmetry. apply (Z.div_unique _ _ ((h * 60 + mi) * 60 + s) us);
      subst total; lia. }
  assert (total mod 1000000 = us) as ->.
  { symmetry. apply (Z.mod_unique _ _ ((h * 60 + mi) * 60 + s) us);
      subst total; lia. }
  assert ((h * 60 + mi) mod 60 = mi) as ->
    by (symmetry; apply (Z.mod_unique _ _ h mi); lia).
  assert (((h * 60 + mi) * 60 + s) mod 60 = s) as ->
    by (symmetry; apply (Z.mod_unique _ _ (h * 60 + mi) s); lia).
  reflexivity.
Qed.

(** X21. The stamp that [append_sent] writes at a reading with sound
    fields reads back, through [fromisoformat], as the same aware UTC
    instant. So [count_this_hour] counts such a record exactly when the
    current reading is in the same UTC year, month, day and hour, whatever
    the local zone. *)
Theorem utc_stamp_round_trip (clk now : Reading) :
  valid_reading clk = true →
  fromisoformat (utc_now_iso clk) = Some (datetime_now_utc clk)
  ∧ within_hour now (utc_now_iso clk)
    = bool_decide
        ((year (on (utc clk)), month (on (utc clk)), day (on (utc clk)),
          hour (utc clk))
         = (year (on (utc now)), month (on (utc now)), day (on (utc now)),
            hour (utc now))).
Proof.
  unfold valid_reading. cbv zeta. rewrite !andb_true_iff, Z.leb_le.
  intros [[Hd Hy] Ht].
  assert (fromisoformat (utc_now_iso clk) = Some (datetime_now_utc clk)) as Hparse.
  { unfold utc_now_iso, datetime_now_utc. by apply utc_stamp_parses. }
  split; [done|].
  unfold within_hour. rewrite Hparse.
  unfold astimezone_utc, datetime_now_utc.
  cbn [utcoffset default on hour minute second microsecond].
  change (- 0) with 0. rewrite add_us_zero by done.
  cbn [on hour minute second microsecond]. done.
Qed.

Lemma utc_stamp_round_trip_witness :
  fromisoformat (utc_now_iso (reading 2024 2 29 23 59 58 (-5)))
  = Some (datetime_now_utc (reading 2024 2 29 23 59 58 (-5))).
Proof.
  refine (proj1 (utc_stamp_round_trip (reading 2024 2 29 23 59 58 (-5))
                   (reading 2024 3 1 0 0 1 (-5)) _)).
  reflexivity.
Defined.

(** ** A quiet-end hour that is no hour *)

(** X22. With [QUIET_END_HOUR] outside 0..23, a start in quiet hours
    ends at once with the [ValueError] of [datetime.time]: after two
    clock readings, with nothing printed and no wait. The same hour makes
    [schedule_next] fail for every candidate instant in quiet hours. *)
Theorem bad_quiet_end_hour_raises
    (cfg : Config) (E : Env) (fuel : nat) (w : World) :
  QUIET_END_HOUR cfg < 0 ∨ 23 < QUIET_END_HOUR cfg →
  (in_quiet_hours cfg (datetime_now (clock E (step w))) = true →
   run (ensure_business_window cfg E fuel) w
   = (mkWorld (S (S (step w))) (sent_log w) (bcc_on w) (trace w),
      Halt (Raised ValueError)))
  ∧ ∀ now_local base_delay_min jitter,
      in_quiet_hours cfg (add_minutes now_local base_delay_min) = true →
      schedule_next cfg now_local base_delay_min jitter = None.
Proof.
  intros Hbad.
  assert (∀ d, combine d (QUIET_END_HOUR cfg) 0 = None) as Hnone.
  { intros d. unfold combine, valid_time.
    destruct (0 <=? QUIET_END_HOUR cfg) eqn:H0;
      destruct (QUIET_END_HOUR cfg <=? 23) eqn:H1; try done.
    apply Z.leb_le in H0. apply Z.leb_le in H1. lia. }
  split.
  - intros Hq. unfold ensure_business_window. rewrite run_read_clock, Hq.
    rewrite run_read_clock. unfold next_start_of_day_at. by rewrite Hnone.
  - intros now_local d j Hq. unfold schedule_next. cbv zeta.
    by rewrite Hq, Hnone.
Qed.

Lemma bad_quiet_end_hour_raises_witness :
  run (ensure_business_window (with_quiet_hours 20 24 default_config)
         refusing_env 5) (fresh_world [])
  = (mkWorld 2 [] true [], Halt (Raised ValueError)).
Proof.
  refine (proj1 (bad_quiet_end_hour_raises (with_quiet_hours 20 24 default_config)
                   refusing_env 5 (fresh_world []) _) _).
  - right. cbn. lia.
  - reflexivity.
Defined.

(** ** Whom a run tries *)






Section Listed.
Variable cfg : Config.
Variable E : Env.





End Listed.


(** ** What holds along a whole run *)

Section RunInvariant.
Variable cfg : Config.
Variable E : Env.
Variable R : relation World.
Context `{!PreOrder R}.

Lemma keeps_ret {A} (a : A) : keeps R (mret a).
Proof. intros w. cbn. reflexivity. Qed.

Lemma keeps_bind {A B} (m : M A) (k : A → M B) :
  keeps R m → (∀ a, keeps R (k a)) → keeps R (m ≫= k).
Proof.
  intros Hm Hk w. rewrite run_bind. specialize (Hm w).
  destruct (run m w) as [w1 [a|h]]; cbn in *; [|done].
  etrans; [exact Hm | apply Hk].
Qed.

Lemma keeps_try_except {A} (m : M A) (h : exn → M A) :
  keeps R m → (∀ e, keeps R (h e)) → keeps R (try_except m h).
Proof.
  intros Hm Hh w. unfold try_except. cbn [run]. specialize (Hm w).
  destruct (run m w) as [w1 [a|[e| |]]]; cbn in *; try done.
  etrans; [exact Hm | apply Hh].
Qed.

(** [R] does not look at the interaction count or at [State.bcc_on]. *)
Hypothesis R_inert : ∀ w n b, R w (mkWorld n (sent_log w) b (trace w)).

Lemma keeps_still {A} (f : World → World * outcome A) :
  (∀ w, sent_log (f w).1 = sent_log w ∧ trace (f w).1 = trace w) →
  keeps R (mkM f).
Proof.
  intros Hf w. cbn. destruct (Hf w) as [Hl Ht].
  destruct (f w).1 as [n l b t]; cbn in *. subst. apply R_inert.
Qed.

Hypothesis R_print : ∀ m, keeps R (print m).
Hypothesis R_sleep : ∀ us, us ≤ 15 * us_per_second → keeps R (sleep us).
Hypothesis R_test_mail :
  ∀ b ok, keeps R (emit (Smtp (build_message cfg (TEST_ADDRESS cfg) b) ok)).

Lemma keeps_ret_bind {A B} (a : A) (k : A → M B) :
  keeps R (k a) → keeps R (mret a ≫= k).
Proof. intros H w. exact (H w). Qed.

Lemma keeps_halt_bind {A B} (h : halt) (k : A → M B) :
  keeps R (mkM (λ w, (w, Halt h)) ≫= k).
Proof. intros w. change (R w w). reflexivity. Qed.

Ltac keeps_steps :=
  repeat match goal with
  | |- keeps _ (mret _ ≫= _) => apply keeps_ret_bind
  | |- keeps _ (_ ≫= _) => apply keeps_bind; [|intros]
  | |- keeps _ (try_except _ _) => apply keeps_try_except; [|intros]
  | |- keeps _ (if ?b then _ else _) => destruct b
  | |- keeps _ (match ?x with _ => _ end) => destruct x
  | |- keeps _ (mret _) => apply keeps_ret
  | |- keeps _ tick => by apply keeps_still
  | |- keeps _ get_bcc_on => by apply keeps_still
  | |- keeps _ (set_bcc_on _) => by apply keeps_still
  | |- keeps _ get_sent_log => by apply keeps_still
  | |- keeps _ (raise _) => by apply keeps_still
  | |- keeps _ sys_exit => by apply keeps_still
  | |- keeps _ out_of_fuel => by apply keeps_still
  | |- keeps _ (print _) => apply R_print
  | |- keeps _ (read_clock _) => unfold read_clock
  | |- keeps _ (has_connectivity _) => unfold has_connectivity
  | |- keeps _ (kbhit_getwch _) => unfold kbhit_getwch
  | |- keeps _ (lognormvariate _ _ _) => unfold lognormvariate
  | |- keeps _ (randint _ _ _) => unfold randint
  | |- keeps _ (smtp_send_one _ _ _) => unfold smtp_send_one
  | |- keeps _ (or_value_error _) => unfold or_value_error
  | |- keeps _ (load_emails _) => unfold load_emails
  end.

Lemma keeps_drain_keys fuel : keeps R (drain_keys cfg E fuel).
Proof.
  induction fuel as [|fuel IH]; cbn [drain_keys]; keeps_steps;
    try done; apply R_test_mail.
Qed.

Lemma keeps_hotkey_loop fuel dw : keeps R (_hotkey_loop cfg E fuel dw).
Proof. unfold _hotkey_loop. keeps_steps; apply keeps_drain_keys. Qed.

Lemma keeps_wait_for_connectivity fuel :
  keeps R (wait_for_connectivity cfg E fuel).
Proof.
  induction fuel as [|fuel IH]; cbn [wait_for_connectivity]; keeps_steps;
    try done; try apply keeps_hotkey_loop.
  all: apply R_sleep; unfold us_per_second; lia.
Qed.

Lemma keeps_wait_until fuel target : keeps R (wait_until cfg E fuel target).
Proof.
  induction fuel as [|fuel IH]; cbn [wait_until]; keeps_steps;
    try done; try apply keeps_hotkey_loop.
  all: apply R_sleep; lia.
Qed.

Lemma keeps_main_test : keeps R (main_test cfg E).
Proof. unfold main_test. keeps_steps. apply R_test_mail. Qed.

(** The [--test] mode of [main]. *)
Lemma keeps_test_mode fuel :
  test_mode (argv E) = true → keeps R (main cfg E fuel).
Proof.
  intros Htest. unfold main. rewrite Htest. keeps_steps;
    try apply keeps_main_test; apply keeps_wait_for_connectivity.
Qed.

Hypothesis R_mail :
  ∀ a b ok, a ∈ recipients E →
            keeps R (emit (Smtp (build_message cfg (lower a) b) ok)).
Hypothesis R_read : keeps R (parse_sent_log E).
Hypothesis R_append : ∀ a, keeps R (append_sent E a).

Lemma keeps_await_connectivity fuel : keeps R (await_connectivity cfg E fuel).
Proof.
  unfold await_connectivity. keeps_steps. apply keeps_wait_for_connectivity.
Qed.

Lemma keeps_tally_domains rows used : keeps R (tally_domains E rows used).
Proof.
  revert used. induction rows as [|[em ts] rows IH]; intros used;
    cbn [tally_domains]; keeps_steps; apply IH.
Qed.

Lemma keeps_hourly_gate fuel s : keeps R (hourly_gate cfg E fuel s).
Proof.
  unfold hourly_gate. keeps_steps;
    try apply keeps_wait_until; try apply keeps_wait_for_connectivity;
    apply R_read.
Qed.

Lemma keeps_plan_and_wait fuel s : keeps R (plan_and_wait cfg E fuel s).
Proof.
  unfold plan_and_wait. keeps_steps;
    try apply keeps_wait_until; apply keeps_await_connectivity.
Qed.

Lemma keeps_attempt_send s a :
  a ∈ recipients E → keeps R (attempt_send cfg E s (lower a)).
Proof.
  intros Ha. unfold attempt_send. keeps_steps;
    try apply R_append; by apply R_mail.
Qed.

Lemma keeps_loop_body fuel emails s :
  (∀ a, a ∈ emails → a ∈ recipients E) →
  keeps R (loop_body cfg E fuel emails s).
Proof.
  intros Hsub. unfold loop_body.
  destruct (_ <=? _); [apply keeps_hourly_gate|].
  destruct (first_unsent_rotating _ _ _ _ _ _) as [addr|] eqn:Hsel;
    [|keeps_steps].
  apply scan_emails_sound in Hsel as [? | (a & Ha & _ & ->)]; [done|].
  unfold send_step. keeps_steps;
    try apply keeps_hotkey_loop; try apply keeps_await_connectivity;
    try apply keeps_plan_and_wait; apply keeps_attempt_send; by apply Hsub.
Qed.

Lemma keeps_main_loop fuel emails s :
  (∀ a, a ∈ emails → a ∈ recipients E) →
  keeps R (main_loop cfg E fuel emails s).
Proof.
  intros Hsub. revert s. induction fuel as [|fuel IH]; intros s;
    cbn [main_loop]; keeps_steps; try done;
    try (by apply keeps_loop_body); apply IH.
Qed.

Lemma keeps_ensure_business_window fuel :
  keeps R (ensure_business_window cfg E fuel).
Proof.
  unfold ensure_business_window. keeps_steps; apply keeps_wait_until.
Qed.

Lemma keeps_main fuel : keeps R (main cfg E fuel).
Proof.
  unfold main. destruct (test_mode (argv E)) eqn:Htest.
  { keeps_steps; try apply keeps_main_test; apply keeps_wait_for_connectivity. }
  apply keeps_bind; [apply R_read|]. intros rows.
  unfold load_emails.
  assert (∀ a, a ∈ recipients E → a ∈ recipients E) as Hsub by done.
  revert Hsub. unfold recipients at 1.
  destruct (emails_txt E) as [flines|]; intros Hsub;
    [|apply keeps_halt_bind].
  keeps_steps;
    try apply keeps_tally_domains; try apply keeps_ensure_business_window;
    try apply keeps_await_connectivity; by apply keeps_main_loop.
Qed.

End RunInvariant.

#[local] Instance emitting_preorder (P : Event → Prop) : PreOrder (emitting P).
Proof.
  split.
  - intros w. exists []. by rewrite app_nil_r.
  - intros w1 w2 w3 (e1 & H1 & F1) (e2 & H2 & F2). exists (e1 ++ e2).
    split; [by rewrite H2, H1, app_assoc | by apply Forall_app].
Qed.

#[local] Instance same_log_preorder : PreOrder same_log.
Proof.
  split; [done|]. intros w1 w2 w3 H1 H2. unfold same_log in *. congruence.
Qed.

Lemma same_log_still {A} (m : M A) :
  (∀ w, sent_log (run m w).1 = sent_log w) → keeps same_log m.
Proof. intros H w. apply H. Qed.

Lemma emitting_inert (P : Event → Prop) w n b :
  emitting P w (mkWorld n (sent_log w) b (trace w)).
Proof. exists []. by rewrite app_nil_r. Qed.

Lemma emitting_emit (P : Event → Prop) (e : Event) :
  P e → keeps (emitting P) (emit e).
Proof. intros He w. exists [e]. split; [done|]. by constructor. Qed.

Lemma emitting_silent (P : Event → Prop) {A} (m : M A) :
  (∀ w, trace (run m w).1 = trace w) → keeps (emitting P) m.
Proof. intros Hm w. exists []. by rewrite Hm, app_nil_r. Qed.

Lemma emitting_main (P : Event → Prop) (cfg : Config) (E : Env) (fuel : nat) :
  (∀ m, P (Printed m)) →
  (∀ us, us ≤ 15 * us_per_second → P (Slept us)) →
  (∀ b ok, P (Smtp (build_message cfg (TEST_ADDRESS cfg) b) ok)) →
  (∀ a b ok, a ∈ recipients E → P (Smtp (build_message cfg (lower a) b) ok)) →
  keeps (emitting P) (main cfg E fuel).
Proof.
  intros Hp Hs Ht Hm. apply keeps_main.
  - apply emitting_preorder.
  - apply emitting_inert.
  - intros m. by apply emitting_emit.
  - intros us Hus. by apply emitting_emit, Hs.
  - intros b ok. by apply emitting_emit.
  - intros a b ok Ha. by apply emitting_emit, Hm.
  - by apply emitting_silent.
  - intros a. by apply emitting_silent.
Qed.

(** X24. Whatever happens in a run, a message is handed to the server
    only for the test address or for the case fold of a recipient that
    [load_emails] kept, and its [Bcc] header is either absent or the
    non-empty [BCC_DEFAULT]. *)
Theorem mail_goes_to_recipients_only
    (cfg : Config) (E : Env) (fuel : nat) (w : World) :
  ∃ evs, trace (run (main cfg E fuel) w).1 = trace w ++ evs
         ∧ ∀ msg ok, Smtp msg ok ∈ evs →
             (msg_to msg = TEST_ADDRESS cfg
              ∨ ∃ a, a ∈ recipients E ∧ msg_to msg = lower a)
             ∧ (msg_bcc msg = None
                ∨ (msg_bcc msg = Some (BCC_DEFAULT cfg)
                   ∧ nonempty (BCC_DEFAULT cfg) = true)).
Proof.
  assert (∀ to b, msg_bcc (build_message cfg to b) = None
                  ∨ (msg_bcc (build_message cfg to b) = Some (BCC_DEFAULT cfg)
                     ∧ nonempty (BCC_DEFAULT cfg) = true)) as Hbcc.
  { intros to b. unfold build_message. cbn [msg_bcc].
    destruct b; cbn [andb]; [|by left].
    destruct (nonempty (BCC_DEFAULT cfg)); [by right | by left]. }
  destruct (emitting_main (addressed cfg E) cfg E fuel) with (w := w)
    as (evs & Ht & Hall).
  - done.
  - done.
  - intros b ok. split; [by left | apply Hbcc].
  - intros a b ok Ha. split; [right; eauto | apply Hbcc].
  - exists evs. split; [done|]. intros msg ok Hin.
    rewrite Forall_forall in Hall. exact (Hall _ Hin).
Qed.

(** X25. No pause of a run is longer than fifteen seconds: between two
    looks at the keyboard and the clock the process sleeps two seconds
    (offline) or at most fifteen (waiting for an instant). *)
Theorem no_long_sleep (cfg : Config) (E : Env) (fuel : nat) (w : World) :
  ∃ evs, trace (run (main cfg E fuel) w).1 = trace w ++ evs
         ∧ ∀ us, Slept us ∈ evs → us ≤ 15 * us_per_second.
Proof.
  destruct (emitting_main short_sleep cfg E fuel) with (w := w)
    as (evs & Ht & Hall); try done.
  exists evs. split; [done|]. intros us Hin.
  rewrite Forall_forall in Hall. exact (Hall _ Hin).
Qed.

(** ** The test mode *)

(** X26. Started with [--test], [main] never reads or writes the log
    or the list of recipients: the log is left as it was, every message
    handed to the server goes to [TEST_ADDRESS], no attempt on a recipient
    is reported, and no exception and no [sys.exit] ends the run. *)
Theorem test_mode_leaves_recipients_alone
    (cfg : Config) (E : Env) (fuel : nat) (w : World) :
  test_mode (argv E) = true →
  sent_log (run (main cfg E fuel) w).1 = sent_log w
  ∧ (∃ evs, trace (run (main cfg E fuel) w).1 = trace w ++ evs
            ∧ attempts evs = []
            ∧ ∀ msg ok, Smtp msg ok ∈ evs → msg_to msg = TEST_ADDRESS cfg)
  ∧ ∀ h, (run (main cfg E fuel) w).2 = Halt h → h = Unfinished.
Proof.
  intros Htest. split; [|split].
  - apply (keeps_test_mode cfg E same_log); try done;
      intros; by apply same_log_still.
  - destruct (keeps_test_mode cfg E (emitting (test_mail cfg))) with (fuel := fuel) (w := w)
      as (evs & Ht & Hall); try done.
    + apply emitting_inert.
    + intros m. by apply emitting_emit.
    + intros us _. by apply emitting_emit.
    + intros b ok. by apply emitting_emit.
    + exists evs. split; [done|]. split.
      * assert (quiet (main cfg E fuel)) as Hq
          by (unfold main; rewrite Htest; quiet_auto).
        destruct (Hq w) as [_ (evs' & Ht' & Ha)].
        rewrite Ht in Ht'. by apply app_inv_head in Ht' as <-.
      * intros msg ok Hin. rewrite Forall_forall in Hall. exact (Hall _ Hin).
  - intros h Hr.
    assert (stops (main cfg E fuel) (λ h, h = Unfinished)) as Hs.
    { unfold main. rewrite Htest. stops_steps;
        try apply stops_has_connectivity; try apply stops_main_test;
        apply stops_wait_for_connectivity. }
    exact (stops_run _ _ _ _ Hs Hr).
Qed.

Lemma test_mode_leaves_recipients_alone_witness :
  sent_log (run (main default_config test_env 5) (fresh_world ["a@x.com;t"])).1
  = ["a@x.com;t"].
Proof.
  refine (proj1 (test_mode_leaves_recipients_alone default_config test_env 5
                   (fresh_world ["a@x.com;t"]) _)).
  reflexivity.
Defined.
